(** * HELICS: broker base dispatcher, tick timer, logging, indexed
      registration and network broker data

    A shallow embedding of
    - [BrokerBase.cpp] (argument intake, logging, the tick-timer completion
      handler and the command dispatch loop),
    - the indexed registration templates of [ValueFederate], and
    - the [NetworkBrokerData] record,
    together with the properties the design document states about them. *)

From Stdlib Require Import ZArith Lia Bool.
From stdpp Require Import base option list strings pretty gmap.

Local Open Scope Z_scope.

(** ** Machine integers *)

(** [int] is 32 bits wide; [int_wrap] is the two's complement reduction the
    hardware applies to the result of an increment. *)
Definition int_wrap (z : Z) : Z := (z + 2 ^ 31) mod 2 ^ 32 - 2 ^ 31.

Definition int_incr (z : Z) : Z := int_wrap (z + 1).

(** [std::to_string] on an [int]: the decimal numeral, with a leading minus
    sign for negative values. *)
Definition to_string (i : Z) : string := pretty i.

(** ** Exceptions *)

Inductive exn : Type :=
  | std_exception (what : string)   (* derives from std::exception *)
  | foreign_exception.              (* anything else that can be thrown *)

Inductive outcome (A : Type) : Type :=
  | Normal (a : A)
  | Throws (e : exn).
Arguments Normal {A} a.
Arguments Throws {A} e.

Definition bind_outcome {A B} (x : outcome A) (k : A -> outcome B) : outcome B :=
  match x with
  | Normal a => k a
  | Throws e => Throws e
  end.

Definition returns {A} (x : outcome A) : bool :=
  match x with Normal _ => true | Throws _ => false end.

(** ** Action messages *)

(** Modelled from the spec: the command set of section 6.  The header that
    declares [action_t] and [ActionMessage] is not among the sources; the
    four tags the dispatcher switches on are kept by name and every domain
    command is [CMD_DOMAIN] with its numeric code. *)
Inductive action_t : Type :=
  | CMD_TICK
  | CMD_IGNORE
  | CMD_STOP
  | CMD_TERMINATE_IMMEDIATELY
  | CMD_DOMAIN (code : Z).

Definition is_tick (a : action_t) : bool :=
  match a with CMD_TICK => true | _ => false end.

(** Modelled from the spec: an action message carries its tag, the source
    and destination ids, a 16 bit flag field and a string payload. *)
Record ActionMessage : Type := mkActionMessage {
  action : action_t;
  source_id : Z;
  dest_id : Z;
  flags : Z;
  payload : string
}.

(** The converting constructor [ActionMessage (action_t)]. *)
Definition ActionMessage_of (a : action_t) : ActionMessage :=
  {| action := a; source_id := 0; dest_id := 0; flags := 0; payload := "" |}.

(** [SET_ACTION_FLAG (M, flag)] is [M.flags |= (1 << flag)] on the 16 bit
    field, [CHECK_ACTION_FLAG (M, flag)] tests that bit. *)
Definition SET_ACTION_FLAG (m : ActionMessage) (flag : Z) : ActionMessage :=
  {| action := action m; source_id := source_id m; dest_id := dest_id m;
     flags := Z.land (Z.lor (flags m) (Z.shiftl 1 flag)) (Z.ones 16);
     payload := payload m |}.

Definition CHECK_ACTION_FLAG (m : ActionMessage) (flag : Z) : bool :=
  negb (Z.land (flags m) (Z.shiftl 1 flag) =? 0).

(** What the dispatcher uses from the action message headers without
    defining it: the index of the error flag, the priority predicate and the
    pretty printer of the dump log. *)
Class ActionMessageDefs : Type := {
  error_flag : Z;
  error_flag_range : 0 <= error_flag < 16;
  isPriorityCommand : ActionMessage -> bool;
  prettyPrintString : ActionMessage -> string
}.

(** ** The command queue *)

(** Modelled from the spec: section 4.3, a priority lane served before a
    normal lane, each first in first out.  The queue class itself is not
    among the sources. *)
Record BlockingPriorityQueue : Type := mkQueue {
  priorityLane : list ActionMessage;
  normalLane : list ActionMessage
}.

Definition emptyQueue : BlockingPriorityQueue :=
  {| priorityLane := []; normalLane := [] |}.

Definition push (m : ActionMessage) (q : BlockingPriorityQueue) : BlockingPriorityQueue :=
  {| priorityLane := priorityLane q; normalLane := normalLane q ++ [m] |}.

Definition pushPriority (m : ActionMessage) (q : BlockingPriorityQueue) : BlockingPriorityQueue :=
  {| priorityLane := priorityLane q ++ [m]; normalLane := normalLane q |}.

Definition emplace := push.
Definition emplacePriority := pushPriority.

(** [pop] on an empty queue blocks: [None]. *)
Definition pop (q : BlockingPriorityQueue) : option (ActionMessage * BlockingPriorityQueue) :=
  match priorityLane q with
  | m :: rest => Some (m, {| priorityLane := rest; normalLane := normalLane q |})
  | [] =>
      match normalLane q with
      | m :: rest => Some (m, {| priorityLane := []; normalLane := rest |})
      | [] => None
      end
  end.

(** The messages waiting in the queue, whatever their lane. *)
Definition queued (q : BlockingPriorityQueue) : list ActionMessage :=
  priorityLane q ++ normalLane q.

(** ** The logger and the observable actions *)

(** Modelled from the spec: the file and console logger ([common/logger.h]
    is not among the sources).  Only what [BrokerBase] asks of it is kept:
    whether its thread runs, its two levels and the file it writes to.  The
    levels of a fresh logger are overwritten by [startLogging] before they
    are used. *)
Record Logger : Type := mkLogger {
  running : bool;
  consoleLevel : Z;
  fileLevel : Z;
  outFile : option string
}.

Definition Logger_new : Logger :=
  {| running := false; consoleLevel := 0; fileLevel := 0; outFile := None |}.

Definition openFile (file : string) (l : Logger) : Logger :=
  {| running := running l; consoleLevel := consoleLevel l;
     fileLevel := fileLevel l; outFile := Some file |}.

Definition startLogging2 (cLevel fLevel : Z) (l : Logger) : Logger :=
  {| running := true; consoleLevel := cLevel; fileLevel := fLevel;
     outFile := outFile l |}.

Definition startLogging (l : Logger) : Logger :=
  startLogging2 (consoleLevel l) (fileLevel l) l.

Definition haltLogging (l : Logger) : Logger :=
  {| running := false; consoleLevel := consoleLevel l;
     fileLevel := fileLevel l; outFile := outFile l |}.

Definition isRunning (l : Logger) : bool := running l.

Definition changeLevels (cLevel fLevel : Z) (l : Logger) : Logger :=
  {| running := running l; consoleLevel := cLevel; fileLevel := fLevel;
     outFile := outFile l |}.

(** A user supplied [std::function<void(int, const std::string &, const
    std::string &)>]; an empty [std::function] is [None]. *)
Inductive LoggerFunction : Type := user_logger (tag : string).

(** What the broker does to the world outside its own fields, in program
    order. *)
Inductive event : Type :=
  | EvMainLoopIsRunning (b : bool)            (* mainLoopIsRunning.store (b) *)
  | EvRunServiceLoop                          (* AsioServiceManager::runServiceLoop () *)
  | EvReleaseServiceLoop                      (* serviceLoop = nullptr *)
  | EvTimerExpiresAt (ms : Z)                 (* ticktimer.expires_at (now + ms) *)
  | EvTimerAsyncWait                          (* ticktimer.async_wait (timerCallback) *)
  | EvTimerCancel                             (* ticktimer.cancel () *)
  | EvActiveStore (b : bool)                  (* active->store (b) *)
  | EvProcessCommand (m : ActionMessage)
  | EvProcessPriorityCommand (m : ActionMessage)
  | EvProcessDisconnect
  | EvLoggerFunction (f : LoggerFunction) (level : Z) (name message : string)
  | EvLoggingObjLog (level : Z) (text : string).

(** ** BrokerBase *)

Module BrokerBase.

Record t : Type := mk {
  identifier : string;
  global_broker_id : Z;
  _min_federates : Z;
  _min_brokers : Z;
  _maxIterations : Z;
  maxLogLevel : Z;
  consoleLogLevel : Z;
  fileLogLevel : Z;
  logFile : string;
  timeout : Z;
  tickTimer : Z;
  dumplog : bool;
  noAutomaticID : bool;
  haltOperations : bool;
  mainLoopIsRunning : bool;
  loggerFunction : option LoggerFunction;
  loggingObj : option Logger;
  timeCoord : bool;                    (* the time coordinator exists *)
  _queue : BlockingPriorityQueue;
  _queue_processing_thread : bool      (* joinable *)
}.

(** Field assignments. *)
Definition set_identifier (v : string) (b : t) : t :=
  let 'mk _ a2 a3 a4 a5 a6 a7 a8 a9 a10 a11 a12 a13 a14 a15 a16 a17 a18 a19 a20 := b in
  mk v a2 a3 a4 a5 a6 a7 a8 a9 a10 a11 a12 a13 a14 a15 a16 a17 a18 a19 a20.
Definition set_min_federates (v : Z) (b : t) : t :=
  let 'mk a1 a2 _ a4 a5 a6 a7 a8 a9 a10 a11 a12 a13 a14 a15 a16 a17 a18 a19 a20 := b in
  mk a1 a2 v a4 a5 a6 a7 a8 a9 a10 a11 a12 a13 a14 a15 a16 a17 a18 a19 a20.
Definition set_min_brokers (v : Z) (b : t) : t :=
  let 'mk a1 a2 a3 _ a5 a6 a7 a8 a9 a10 a11 a12 a13 a14 a15 a16 a17 a18 a19 a20 := b in
  mk a1 a2 a3 v a5 a6 a7 a8 a9 a10 a11 a12 a13 a14 a15 a16 a17 a18 a19 a20.
Definition set_maxIterations (v : Z) (b : t) : t :=
  let 'mk a1 a2 a3 a4 _ a6 a7 a8 a9 a10 a11 a12 a13 a14 a15 a16 a17 a18 a19 a20 := b in
  mk a1 a2 a3 a4 v a6 a7 a8 a9 a10 a11 a12 a13 a14 a15 a16 a17 a18 a19 a20.
Definition set_maxLogLevel (v : Z) (b : t) : t :=
  let 'mk a1 a2 a3 a4 a5 _ a7 a8 a9 a10 a11 a12 a13 a14 a15 a16 a17 a18 a19 a20 := b in
  mk a1 a2 a3 a4 a5 v a7 a8 a9 a10 a11 a12 a13 a14 a15 a16 a17 a18 a19 a20.
Definition set_consoleLogLevel (v : Z) (b : t) : t :=
  let 'mk a1 a2 a3 a4 a5 a6 _ a8 a9 a10 a11 a12 a13 a14 a15 a16 a17 a18 a19 a20 := b in
  mk a1 a2 a3 a4 a5 a6 v a8 a9 a10 a11 a12 a13 a14 a15 a16 a17 a18 a19 a20.
Definition set_fileLogLevel (v : Z) (b : t) : t :=
  let 'mk a1 a2 a3 a4 a5 a6 a7 _ a9 a10 a11 a12 a13 a14 a15 a16 a17 a18 a19 a20 := b in
  mk a1 a2 a3 a4 a5 a6 a7 v a9 a10 a11 a12 a13 a14 a15 a16 a17 a18 a19 a20.
Definition set_logFile (v : string) (b : t) : t :=
  let 'mk a1 a2 a3 a4 a5 a6 a7 a8 _ a10 a11 a12 a13 a14 a15 a16 a17 a18 a19 a20 := b in
  mk a1 a2 a3 a4 a5 a6 a7 a8 v a10 a11 a12 a13 a14 a15 a16 a17 a18 a19 a20.
Definition set_timeout (v : Z) (b : t) : t :=
  let 'mk a1 a2 a3 a4 a5 a6 a7 a8 a9 _ a11 a12 a13 a14 a15 a16 a17 a18 a19 a20 := b in
  mk a1 a2 a3 a4 a5 a6 a7 a8 a9 v a11 a12 a13 a14 a15 a16 a17 a18 a19 a20.
Definition set_tickTimer (v : Z) (b : t) : t :=
  let 'mk a1 a2 a3 a4 a5 a6 a7 a8 a9 a10 _ a12 a13 a14 a15 a16 a17 a18 a19 a20 := b in
  mk a1 a2 a3 a4 a5 a6 a7 a8 a9 a10 v a12 a13 a14 a15 a16 a17 a18 a19 a20.
Definition set_dumplog (v : bool) (b : t) : t :=
  let 'mk a1 a2 a3 a4 a5 a6 a7 a8 a9 a10 a11 _ a13 a14 a15 a16 a17 a18 a19 a20 := b in
  mk a1 a2 a3 a4 a5 a6 a7 a8 a9 a10 a11 v a13 a14 a15 a16 a17 a18 a19 a20.
Definition set_mainLoopIsRunning (v : bool) (b : t) : t :=
  let 'mk a1 a2 a3 a4 a5 a6 a7 a8 a9 a10 a11 a12 a13 a14 _ a16 a17 a18 a19 a20 := b in
  mk a1 a2 a3 a4 a5 a6 a7 a8 a9 a10 a11 a12 a13 a14 v a16 a17 a18 a19 a20.
Definition set_loggerFunction (v : option LoggerFunction) (b : t) : t :=
  let 'mk a1 a2 a3 a4 a5 a6 a7 a8 a9 a10 a11 a12 a13 a14 a15 _ a17 a18 a19 a20 := b in
  mk a1 a2 a3 a4 a5 a6 a7 a8 a9 a10 a11 a12 a13 a14 a15 v a17 a18 a19 a20.
Definition set_loggingObj (v : option Logger) (b : t) : t :=
  let 'mk a1 a2 a3 a4 a5 a6 a7 a8 a9 a10 a11 a12 a13 a14 a15 a16 _ a18 a19 a20 := b in
  mk a1 a2 a3 a4 a5 a6 a7 a8 a9 a10 a11 a12 a13 a14 a15 a16 v a18 a19 a20.
Definition set_timeCoord (v : bool) (b : t) : t :=
  let 'mk a1 a2 a3 a4 a5 a6 a7 a8 a9 a10 a11 a12 a13 a14 a15 a16 a17 _ a19 a20 := b in
  mk a1 a2 a3 a4 a5 a6 a7 a8 a9 a10 a11 a12 a13 a14 a15 a16 a17 v a19 a20.
Definition set_queue (v : BlockingPriorityQueue) (b : t) : t :=
  let 'mk a1 a2 a3 a4 a5 a6 a7 a8 a9 a10 a11 a12 a13 a14 a15 a16 a17 a18 _ a20 := b in
  mk a1 a2 a3 a4 a5 a6 a7 a8 a9 a10 a11 a12 a13 a14 a15 a16 a17 a18 v a20.
Definition set_queue_processing_thread (v : bool) (b : t) : t :=
  let 'mk a1 a2 a3 a4 a5 a6 a7 a8 a9 a10 a11 a12 a13 a14 a15 a16 a17 a18 a19 _ := b in
  mk a1 a2 a3 a4 a5 a6 a7 a8 a9 a10 a11 a12 a13 a14 a15 a16 a17 a18 a19 v.

(** *** Argument intake *)

(** A value stored in the [boost::program_options::variables_map]. *)
Inductive po_value : Type :=
  | po_int (z : Z)
  | po_string (s : string)
  | po_flag.

(** [v.as<int> ()] and [v.as<std::string> ()]; a value of another type
    throws [boost::bad_any_cast]. *)
Definition as_int (v : po_value) : outcome Z :=
  match v with
  | po_int z => Normal z
  | _ => Throws (std_exception "boost::bad_any_cast")
  end.

Definition as_string (v : po_value) : outcome string :=
  match v with
  | po_string s => Normal s
  | _ => Throws (std_exception "boost::bad_any_cast")
  end.

(** [if (vm.count (key) > 0) { field = vm[key].as<int> (); }] *)
Definition take_int (vm : gmap string po_value) (key : string)
    (assign : Z -> t -> t) (b : t) : outcome t :=
  match vm !! key with
  | None => Normal b
  | Some v => bind_outcome (as_int v) (fun z => Normal (assign z b))
  end.

Definition take_string (vm : gmap string po_value) (key : string)
    (assign : string -> t -> t) (b : t) : outcome t :=
  match vm !! key with
  | None => Normal b
  | Some v => bind_outcome (as_string v) (fun s => Normal (assign s b))
  end.

Definition take_flag (vm : gmap string po_value) (key : string)
    (assign : t -> t) (b : t) : outcome t :=
  match vm !! key with
  | None => Normal b
  | Some _ => Normal (assign b)
  end.

Definition string_empty (s : string) : bool :=
  match s with EmptyString => true | _ => false end.

(** [initializeFromCmdArgs] from its second statement on: [vm] is the
    variables map [argumentParser (argc, argv, vm)] filled in, so this is
    the function on the runs in which the parser returns; what the parser
    throws (a parse error, a configuration file that is missing) leaves the
    function before any field is touched and is not part of this
    definition.  The parser declares every option with its type, so a map
    it filled in holds an [int] where [as<int>] is asked and a string where
    [as<std::string>] is asked.  [fresh_id] is what [gen_id ()] returns (the
    process id and a random uuid).  The last statement move-assigns the new
    dispatcher thread; it is modelled by the field becoming joinable, which
    is what it does on a broker whose thread is not joinable yet. *)
Definition initializeFromCmdArgs (vm : gmap string po_value) (fresh_id : string)
    (b : t) : outcome t :=
  bind_outcome (take_int vm "min" set_min_federates b) (fun b =>
  bind_outcome (take_int vm "minfed" set_min_federates b) (fun b =>
  bind_outcome (take_int vm "federates" set_min_federates b) (fun b =>
  bind_outcome (take_int vm "minbroker" set_min_brokers b) (fun b =>
  bind_outcome (take_int vm "maxiter" set_maxIterations b) (fun b =>
  bind_outcome (take_string vm "name" set_identifier b) (fun b =>
  bind_outcome (take_flag vm "dumplog" (set_dumplog true) b) (fun b =>
  bind_outcome (take_string vm "identifier" set_identifier b) (fun b =>
  bind_outcome (take_int vm "loglevel" set_maxLogLevel b) (fun b =>
  bind_outcome (take_string vm "logfile" set_logFile b) (fun b =>
  bind_outcome (take_int vm "timeout" set_timeout b) (fun b =>
  bind_outcome (take_int vm "tick" set_tickTimer b) (fun b =>
  let b :=
    if negb (noAutomaticID b) then
      if string_empty (identifier b) then set_identifier fresh_id b else b
    else b in
  let b := set_timeCoord true b in
  let l := Logger_new in
  let l := if negb (string_empty (logFile b)) then openFile (logFile b) l else l in
  let l := startLogging2 (maxLogLevel b) (maxLogLevel b) l in
  let b := set_loggingObj (Some l) b in
  Normal (set_queue_processing_thread true b))))))))))))).

(** *** Logging *)

(** [sendToLogger]: the returned flag and the calls it makes.  The method is
    [const]: no field of the broker changes. *)
Definition sendToLogger (b : t) (federateID logLevel : Z) (name message : string)
    : bool * list event :=
  if (federateID =? 0) || (federateID =? global_broker_id b) then
    if logLevel >? maxLogLevel b then
      (true, [])
    else
      match loggerFunction b with
      | Some f => (true, [EvLoggerFunction f logLevel name message])
      | None =>
          match loggingObj b with
          | Some _ => (true, [EvLoggingObjLog logLevel (name +:+ "::" +:+ message)])
          | None => (true, [])
          end
      end
  else (false, []).

(** [setLoggerFunction]; [None] is the dereference of a null [loggingObj]
    on the path that restarts the file logger. *)
Definition setLoggerFunction (logFunction : option LoggerFunction) (b : t) : option t :=
  let b := set_loggerFunction logFunction b in
  match loggerFunction b with
  | Some _ =>
      match loggingObj b with
      | Some l =>
          if isRunning l then Some (set_loggingObj (Some (haltLogging l)) b)
          else Some b
      | None => Some b
      end
  | None =>
      match loggingObj b with
      | Some l =>
          if negb (isRunning l) then Some (set_loggingObj (Some (startLogging l)) b)
          else Some b
      | None => None
      end
  end.

Definition setLogLevels (consoleLevel fileLevel : Z) (b : t) : t :=
  let b := set_consoleLogLevel consoleLevel b in
  let b := set_fileLogLevel fileLevel b in
  let b := set_maxLogLevel (Z.max (consoleLogLevel b) (fileLogLevel b)) b in
  match loggingObj b with
  | Some l =>
      set_loggingObj (Some (changeLevels (consoleLogLevel b) (fileLogLevel b) l)) b
  | None => b
  end.

Definition setLogLevel (level : Z) (b : t) : t := setLogLevels level level b.

(** The broker owns the log stream of [federateID]: the id is [0] or the
    broker's own global id. *)
Definition owns_log_stream (b : t) (federateID : Z) : Prop :=
  federateID = 0 \/ federateID = global_broker_id b.

(** *** Enqueueing *)

(** [addActionMessage (const ActionMessage &)] and [addActionMessage
    (ActionMessage &&)].  [fault] is the exception, if any, that the queue
    operation raises (an allocation failure). *)
Definition addActionMessage {D : ActionMessageDefs} (fault : option exn)
    (m : ActionMessage) (b : t) : outcome t :=
  match fault with
  | Some e => Throws e
  | None =>
      if isPriorityCommand m
      then Normal (set_queue (pushPriority m (_queue b)) b)
      else Normal (set_queue (push m (_queue b)) b)
  end.

Definition addActionMessage_move {D : ActionMessageDefs} (fault : option exn)
    (m : ActionMessage) (b : t) : outcome t :=
  match fault with
  | Some e => Throws e
  | None =>
      if isPriorityCommand m
      then Normal (set_queue (emplacePriority m (_queue b)) b)
      else Normal (set_queue (emplace m (_queue b)) b)
  end.

(** *** The tick timer completion handler *)

(** The value of a [boost::system::error_code] of the system category; [0]
    is success. *)
Definition error_code : Type := Z.

Definition success : error_code := 0.

(** [boost::asio::error::operation_aborted] ([ECANCELED]). *)
Definition operation_aborted : error_code := 125.



(** [timerTickHandler (bbase, active, error)].  [active] is the value read
    under the lock of the guarded cell, which the handler holds until it
    returns; [cout] collects what is written to [std::cout]. *)
Definition timerTickHandler {D : ActionMessageDefs} (fault : option exn)
    (active : bool) (error : error_code) (bbase : t) (cout : list string)
    : outcome (t * list string) :=
  if active then
    if negb (error =? operation_aborted) then
      match addActionMessage_move fault (ActionMessage_of CMD_TICK) bbase with
      | Normal bbase' => Normal (bbase', cout)
      | Throws (std_exception _) =>
          Normal (bbase, cout ++ ["exception caught from addActionMessage"])
      | Throws e => Throws e
      end
    else
      let M := ActionMessage_of CMD_TICK in
      let M := SET_ACTION_FLAG M error_flag in
      bind_outcome (addActionMessage fault M bbase)
        (fun bbase' => Normal (bbase', cout))
  else Normal (bbase, cout).

(** *** The dispatcher *)

(** The hooks a concrete broker or core supplies.  A hook receives the
    command by rvalue reference and may change any field of the broker; it
    hands back what it left of the command. *)
Class Hooks : Type := {
  processCommand : ActionMessage -> t -> ActionMessage * t;
  processPriorityCommand : ActionMessage -> t -> ActionMessage * t;
  processDisconnect : t -> t
}.

(** The broker together with the locals of [queueProcessingLoop]. *)
Record LoopState : Type := mkLoop {
  bbase : t;
  dumpMessages : list ActionMessage;
  serviceLoop : bool;              (* a service loop handle is held *)
  ticktimer : option Z;            (* the delay of the loop's last [async_wait];
                                      [None] before the first one and after
                                      [cancel].  Whether that wait has completed
                                      since is not recorded here. *)
  active : bool;                   (* the guarded cell shared with the callback *)
  messagesSinceLastTick : Z;
  trace : list event
}.

Definition emit (evs : list event) (s : LoopState) : LoopState :=
  mkLoop (bbase s) (dumpMessages s) (serviceLoop s) (ticktimer s) (active s)
         (messagesSinceLastTick s) (trace s ++ evs).

Definition store_mainLoopIsRunning (v : bool) (s : LoopState) : LoopState :=
  mkLoop (set_mainLoopIsRunning v (bbase s)) (dumpMessages s) (serviceLoop s)
         (ticktimer s) (active s) (messagesSinceLastTick s)
         (trace s ++ [EvMainLoopIsRunning v]).

Definition runServiceLoop (s : LoopState) : LoopState :=
  mkLoop (bbase s) (dumpMessages s) true (ticktimer s) (active s)
         (messagesSinceLastTick s) (trace s ++ [EvRunServiceLoop]).

Definition releaseServiceLoop (s : LoopState) : LoopState :=
  mkLoop (bbase s) (dumpMessages s) false (ticktimer s) (active s)
         (messagesSinceLastTick s) (trace s ++ [EvReleaseServiceLoop]).

(** [ticktimer.expires_at (now + tickTimer); ticktimer.async_wait (cb)] *)
Definition arm_timer (s : LoopState) : LoopState :=
  mkLoop (bbase s) (dumpMessages s) (serviceLoop s)
         (Some (tickTimer (bbase s))) (active s) (messagesSinceLastTick s)
         (trace s ++ [EvTimerExpiresAt (tickTimer (bbase s)); EvTimerAsyncWait]).

Definition cancel_timer (s : LoopState) : LoopState :=
  mkLoop (bbase s) (dumpMessages s) (serviceLoop s) None (active s)
         (messagesSinceLastTick s) (trace s ++ [EvTimerCancel]).

Definition store_active (v : bool) (s : LoopState) : LoopState :=
  mkLoop (bbase s) (dumpMessages s) (serviceLoop s) (ticktimer s) v
         (messagesSinceLastTick s) (trace s ++ [EvActiveStore v]).

Definition set_messagesSinceLastTick (n : Z) (s : LoopState) : LoopState :=
  mkLoop (bbase s) (dumpMessages s) (serviceLoop s) (ticktimer s) (active s)
         n (trace s).

Definition push_back_dump (m : ActionMessage) (s : LoopState) : LoopState :=
  mkLoop (bbase s) (dumpMessages s ++ [m]) (serviceLoop s) (ticktimer s)
         (active s) (messagesSinceLastTick s) (trace s).

Definition call_processCommand {H : Hooks} (command : ActionMessage) (s : LoopState)
    : ActionMessage * LoopState :=
  let '(left_over, b) := processCommand command (bbase s) in
  (left_over,
   mkLoop b (dumpMessages s) (serviceLoop s) (ticktimer s) (active s)
          (messagesSinceLastTick s) (trace s ++ [EvProcessCommand command])).

Definition call_processPriorityCommand {H : Hooks} (command : ActionMessage)
    (s : LoopState) : ActionMessage * LoopState :=
  let '(left_over, b) := processPriorityCommand command (bbase s) in
  (left_over,
   mkLoop b (dumpMessages s) (serviceLoop s) (ticktimer s) (active s)
          (messagesSinceLastTick s) (trace s ++ [EvProcessPriorityCommand command])).

Definition call_processDisconnect {H : Hooks} (s : LoopState) : LoopState :=
  mkLoop (processDisconnect (bbase s)) (dumpMessages s) (serviceLoop s)
         (ticktimer s) (active s) (messagesSinceLastTick s)
         (trace s ++ [EvProcessDisconnect]).

(** [(boost::format ("|| dl cmd:%s from %d to %d") % prettyPrintString (act)
    % act.source_id % act.dest_id).str ()] *)
Definition dump_line {D : ActionMessageDefs} (act : ActionMessage) : string :=
  "|| dl cmd:" +:+ prettyPrintString act +:+ " from " +:+ to_string (source_id act)
    +:+ " to " +:+ to_string (dest_id act).

(** The calls the [logDump] lambda makes. *)
Definition logDump_events {D : ActionMessageDefs} (b : t) (dumped : list ActionMessage)
    : list event :=
  if dumplog b then
    flat_map (fun act => snd (sendToLogger b 0 (-10) (identifier b) (dump_line act)))
             dumped
  else [].

Definition logDump {D : ActionMessageDefs} (s : LoopState) : LoopState :=
  emit (logDump_events (bbase s) (dumpMessages s)) s.

(** [if (dumplog) { dumpMessages.push_back (command); }] *)
Definition record_pop (command : ActionMessage) (s : LoopState) : LoopState :=
  if dumplog (bbase s) then push_back_dump command s else s.

(** What [queueProcessingLoop] does before it enters [while (true)]. *)
Definition loop_entry (b : t) : LoopState :=
  let s := mkLoop b [] false None true 0 [] in
  let s := store_mainLoopIsRunning true s in
  let s := runServiceLoop s in
  let s := arm_timer s in
  set_messagesSinceLastTick 0 s.

(** One iteration of [while (true)] on the command [_queue.pop ()]
    returned; the flag tells whether the iteration left the function. *)
Definition loop_body {D : ActionMessageDefs} {H : Hooks} (command : ActionMessage)
    (s : LoopState) : LoopState * bool :=
  let s := record_pop command s in
  match action command with
  | CMD_TICK =>
      let '(command, s) :=
        if messagesSinceLastTick s =? 0
        then call_processCommand command s
        else (command, s) in
      let s :=
        if CHECK_ACTION_FLAG command error_flag
        then runServiceLoop (releaseServiceLoop s)
        else s in
      let s := set_messagesSinceLastTick 0 s in
      (arm_timer s, false)
  | CMD_IGNORE => (s, false)
  | CMD_TERMINATE_IMMEDIATELY =>
      let s := cancel_timer s in
      let s := releaseServiceLoop s in
      let s := store_mainLoopIsRunning false s in
      let s := store_active false s in
      (logDump s, true)
  | CMD_STOP =>
      let s := cancel_timer s in
      let s := releaseServiceLoop s in
      if negb (haltOperations (bbase s)) then
        let '(_, s) := call_processCommand command s in
        let s := store_mainLoopIsRunning false s in
        let s := store_active false s in
        let s := logDump s in
        (call_processDisconnect s, true)
      else (s, true)
  | CMD_DOMAIN _ =>
      if negb (haltOperations (bbase s)) then
        let s := set_messagesSinceLastTick (int_incr (messagesSinceLastTick s)) s in
        if isPriorityCommand command
        then (snd (call_processPriorityCommand command s), false)
        else (snd (call_processCommand command s), false)
      else (s, false)
  end.

(** The loop on the commands the queue hands out, in the order it hands
    them out.  When they run out [_queue.pop ()] blocks. *)
Inductive loop_result : Type :=
  | Returned (s : LoopState)
  | Blocked (s : LoopState).

Fixpoint loop_from {D : ActionMessageDefs} {H : Hooks} (popped : list ActionMessage)
    (s : LoopState) : loop_result :=
  match popped with
  | [] => Blocked s
  | command :: rest =>
      let '(s', returned) := loop_body command s in
      if returned then Returned s' else loop_from rest s'
  end.

Definition queueProcessingLoop {D : ActionMessageDefs} {H : Hooks}
    (popped : list ActionMessage) (b : t) : loop_result :=
  loop_from popped (loop_entry b).

Definition final_state (r : loop_result) : LoopState :=
  match r with Returned s => s | Blocked s => s end.

Definition has_returned (r : loop_result) : bool :=
  match r with Returned _ => true | Blocked _ => false end.

(** *** Observations on a run *)

(** [processCommand] was invoked with a tick. *)
Definition forwards_tick (e : event) : bool :=
  match e with EvProcessCommand m => is_tick (action m) | _ => false end.

Definition tick_forwarded (tr : list event) : bool := existsb forwards_tick tr.

(** No two ticks follow each other directly: between consecutive ticks
    there is a command that is not a tick. *)
Fixpoint no_adjacent_ticks (popped : list ActionMessage) : bool :=
  match popped with
  | [] => true
  | a :: rest =>
      match rest with
      | [] => true
      | b :: _ => negb (is_tick (action a) && is_tick (action b))
      end && no_adjacent_ticks rest
  end.

(** Every tick, up to the command that stops the loop, comes after a domain
    command popped since the previous tick, or since the loop was entered
    when there is no previous tick.  [seen] tells whether such a command
    has been popped already. *)
Fixpoint counted_before_each_tick (seen : bool) (popped : list ActionMessage) : bool :=
  match popped with
  | [] => true
  | command :: rest =>
      match action command with
      | CMD_TICK => seen && counted_before_each_tick false rest
      | CMD_IGNORE => counted_before_each_tick seen rest
      | CMD_STOP | CMD_TERMINATE_IMMEDIATELY => true
      | CMD_DOMAIN _ => counted_before_each_tick true rest
      end
  end.

(** The hooks that process a command leave [haltOperations] clear. *)
Definition keeps_running {H : Hooks} : Prop :=
  forall m b, haltOperations b = false ->
    haltOperations (snd (processCommand m b)) = false /\
    haltOperations (snd (processPriorityCommand m b)) = false.

(** The value last given to [mainLoopIsRunning.store], if any. *)
Definition last_mainLoopIsRunning (tr : list event) : option bool :=
  fold_left (fun a e => match e with EvMainLoopIsRunning v => Some v | _ => a end)
            tr None.

(** The command takes the loop through its whole teardown: it is
    [CMD_TERMINATE_IMMEDIATELY], or [CMD_STOP] with [haltOperations] clear. *)
Definition completes_teardown (command : ActionMessage) (s : LoopState) : Prop :=
  action command = CMD_TERMINATE_IMMEDIATELY \/
  (action command = CMD_STOP /\ haltOperations (bbase s) = false).

(** What [sendToLogger] reads for the dump log is the same in both
    brokers. *)
Definition same_logging (b b' : t) : Prop :=
  dumplog b' = dumplog b /\ identifier b' = identifier b /\
  maxLogLevel b' = maxLogLevel b /\ loggerFunction b' = loggerFunction b /\
  (is_Some (loggingObj b') <-> is_Some (loggingObj b)).

(** The hooks that process a command leave the logging set-up alone. *)
Definition keeps_logging {H : Hooks} : Prop :=
  forall m b, same_logging b (snd (processCommand m b)) /\
              same_logging b (snd (processPriorityCommand m b)).

(** A logger function or a file logger is there to receive a message. *)
Definition logger_installed (b : t) : Prop :=
  is_Some (loggerFunction b) \/ is_Some (loggingObj b).

(** The call that carries the dump line of [act] to the logger. *)
Definition dump_event {D : ActionMessageDefs} (b : t) (act : ActionMessage) : event :=
  match loggerFunction b with
  | Some f => EvLoggerFunction f (-10) (identifier b) (dump_line act)
  | None => EvLoggingObjLog (-10) (identifier b +:+ "::" +:+ dump_line act)
  end.

Definition is_active_store (e : event) : bool :=
  match e with EvActiveStore _ => true | _ => false end.

(** The event is a call on the logger function or on the file logger. *)
Definition is_logger_call (e : event) : bool :=
  match e with
  | EvLoggerFunction _ _ _ _ | EvLoggingObjLog _ _ => true
  | _ => false
  end.

(** What the teardown does between the cancellation of the timer and the
    store to the liveness flag. *)
Definition between_cancel_and_store (command : ActionMessage) : list event :=
  match action command with
  | CMD_STOP =>
      [EvReleaseServiceLoop; EvProcessCommand command; EvMainLoopIsRunning false]
  | _ => [EvReleaseServiceLoop; EvMainLoopIsRunning false]
  end.

(** The broker as the dump log finds it: after [processCommand] for
    [CMD_STOP], with [mainLoopIsRunning] cleared. *)
Definition broker_at_dump {H : Hooks} (command : ActionMessage) (s : LoopState) : t :=
  set_mainLoopIsRunning false
    match action command with
    | CMD_STOP => snd (processCommand command (bbase s))
    | _ => bbase s
    end.

(** What the teardown does after the store to the liveness flag. *)
Definition after_store {D : ActionMessageDefs} {H : Hooks}
    (command : ActionMessage) (s : LoopState) : list event :=
  logDump_events (broker_at_dump command s) (dumpMessages (record_pop command s))
    ++ match action command with
       | CMD_STOP => [EvProcessDisconnect]
       | _ => []
       end.

(** *** A callback in flight *)

(** The value of the guarded cell after the events [tr] of a run: it is
    created holding [true] and changed by [active->store]. *)
Definition active_after (tr : list event) : bool :=
  fold_left (fun a e => match e with EvActiveStore v => v | _ => a end) tr true.

(** The timer callback running on the service thread once the dispatcher
    has performed the first [k] actions of the run [tr]. *)
Definition callback_at {D : ActionMessageDefs} (tr : list event) (k : nat)
    (fault : option exn) (error : error_code) (b : t) (cout : list string)
    : outcome (t * list string) :=
  timerTickHandler fault (active_after (take k tr)) error b cout.

(** *** Identifiers *)

(** [gen_id ()]: the process id in decimal, a dash and the text of a random
    uuid.  [pid] is what [getpid ()] returns and [uuid_str] the text of the
    uuid the generator produced. *)
Definition gen_id (pid : Z) (uuid_str : string) : string :=
  (to_string pid +:+ "-") +:+ uuid_str.

Definition generateNewIdentifier (pid : Z) (uuid_str : string) (b : t) : t :=
  set_identifier (gen_id pid uuid_str) b.

(** *** Further observations on a run *)

(** The command makes the loop return. *)
Definition is_stopping (a : action_t) : bool :=
  match a with
  | CMD_STOP | CMD_TERMINATE_IMMEDIATELY => true
  | _ => false
  end.

(** The commands popped before the first one that makes the loop return. *)
Fixpoint before_stop (popped : list ActionMessage) : list ActionMessage :=
  match popped with
  | [] => []
  | command :: rest =>
      if is_stopping (action command) then [] else command :: before_stop rest
  end.

(** The event is a call of one of the three hooks. *)
Definition is_hook_event (e : event) : bool :=
  match e with
  | EvProcessCommand _ | EvProcessPriorityCommand _ | EvProcessDisconnect => true
  | _ => false
  end.

(** The command a hook was called with. *)
Definition hook_command (e : event) : option ActionMessage :=
  match e with
  | EvProcessCommand m | EvProcessPriorityCommand m => Some m
  | _ => None
  end.

(** The event is one a running loop produces: a hook call on a command, a
    restart of the service loop or the arming of the timer. *)
Definition is_running_event (e : event) : bool :=
  match e with
  | EvProcessCommand _ | EvProcessPriorityCommand _
  | EvReleaseServiceLoop | EvRunServiceLoop
  | EvTimerExpiresAt _ | EvTimerAsyncWait => true
  | _ => false
  end.

(** A hook call goes to the hook the dispatch rules name: priority domain
    commands to [processPriorityCommand]; ticks, [CMD_STOP] and the other
    domain commands to [processCommand]. *)
Definition well_routed {D : ActionMessageDefs} (e : event) : bool :=
  match e with
  | EvProcessPriorityCommand m =>
      match action m with
      | CMD_DOMAIN _ => isPriorityCommand m
      | _ => false
      end
  | EvProcessCommand m =>
      match action m with
      | CMD_TICK | CMD_STOP => true
      | CMD_DOMAIN _ => negb (isPriorityCommand m)
      | _ => false
      end
  | _ => true
  end.

(** [processCommand] leaves [haltOperations] set. *)
Definition keeps_halted {H : Hooks} : Prop :=
  forall m b, haltOperations b = true ->
    haltOperations (snd (processCommand m b)) = true.

(** The message the timer callback enqueues for a completion with
    [error]. *)
Definition completion_tick {D : ActionMessageDefs} (error : error_code)
    : ActionMessage :=
  if error =? operation_aborted
  then SET_ACTION_FLAG (ActionMessage_of CMD_TICK) error_flag
  else ActionMessage_of CMD_TICK.

(** *** The options argument intake reads *)

Definition int_typed (v : option po_value) : bool :=
  match v with
  | None | Some (po_int _) => true
  | _ => false
  end.

Definition string_typed (v : option po_value) : bool :=
  match v with
  | None | Some (po_string _) => true
  | _ => false
  end.

(** Every option [initializeFromCmdArgs] converts holds a value of the type
    it is converted to ([dumplog] is only counted). *)
Definition well_typed (vm : gmap string po_value) : bool :=
  int_typed (vm !! "min") && int_typed (vm !! "minfed")
  && int_typed (vm !! "federates") && int_typed (vm !! "minbroker")
  && int_typed (vm !! "maxiter") && string_typed (vm !! "name")
  && string_typed (vm !! "identifier") && int_typed (vm !! "loglevel")
  && string_typed (vm !! "logfile") && int_typed (vm !! "timeout")
  && int_typed (vm !! "tick").

(** What the conversion and assignment of one option leave in the broker
    when the conversion succeeds. *)
Definition assign_int (v : option po_value) (assign : Z -> t -> t) (b : t) : t :=
  match v with
  | Some (po_int z) => assign z b
  | _ => b
  end.

Definition assign_string (v : option po_value) (assign : string -> t -> t)
    (b : t) : t :=
  match v with
  | Some (po_string s) => assign s b
  | _ => b
  end.

Definition assign_flag (v : option po_value) (assign : t -> t) (b : t) : t :=
  match v with
  | Some _ => assign b
  | None => b
  end.

(** The broker once every option has been read, before the identifier is
    completed and the logger and the thread are started. *)
Definition options_read (vm : gmap string po_value) (b : t) : t :=
  assign_int (vm !! "tick") set_tickTimer
    (assign_int (vm !! "timeout") set_timeout
      (assign_string (vm !! "logfile") set_logFile
        (assign_int (vm !! "loglevel") set_maxLogLevel
          (assign_string (vm !! "identifier") set_identifier
            (assign_flag (vm !! "dumplog") (set_dumplog true)
              (assign_string (vm !! "name") set_identifier
                (assign_int (vm !! "maxiter") set_maxIterations
                  (assign_int (vm !! "minbroker") set_min_brokers
                    (assign_int (vm !! "federates") set_min_federates
                      (assign_int (vm !! "minfed") set_min_federates
                        (assign_int (vm !! "min") set_min_federates b))))))))))).

(** What intake does once the options are read: it completes the
    identifier, creates the time coordinator, creates and starts the logger
    and starts the dispatcher thread. *)
Definition start_up (fresh_id : string) (b : t) : t :=
  let b :=
    if negb (noAutomaticID b) then
      if string_empty (identifier b) then set_identifier fresh_id b else b
    else b in
  let b := set_timeCoord true b in
  let l := Logger_new in
  let l := if negb (string_empty (logFile b)) then openFile (logFile b) l else l in
  let l := startLogging2 (maxLogLevel b) (maxLogLevel b) l in
  let b := set_loggingObj (Some l) b in
  set_queue_processing_thread true b.

End BrokerBase.

(** ** Characters of a string *)

(** Every character of the string passes the test. *)
Fixpoint string_forall (p : Ascii.ascii -> bool) (s : string) : bool :=
  match s with
  | EmptyString => true
  | String c rest => p c && string_forall p rest
  end.

Definition is_not (sep : Ascii.ascii) (c : Ascii.ascii) : bool :=
  negb (Ascii.eqb c sep).

(** The character is a decimal digit. *)
Definition is_digit (c : Ascii.ascii) : bool :=
  (48 <=? Ascii.nat_of_ascii c)%nat && (Ascii.nat_of_ascii c <=? 57)%nat.

(** ** ValueFederate: the indexed registration templates *)

Module ValueFederate.

Section Registration.
(** The federate, the handles registration returns and the value types
    [X] the templates are instantiated at. *)
Context {Fed Publication Input ValueType : Type}.

(** [ValueConverter<X>::type ()] *)
Variable ValueConverter_type : ValueType -> string.

(** The member functions the templates forward to; they are declared in
    the class and defined in a source file that is not part of the model.
    A registration changes the federate and may throw. *)
Variable registerGlobalPublication :
  string -> string -> string -> Fed -> outcome (Publication * Fed).
Variable registerGlobalInput :
  string -> string -> string -> Fed -> outcome (Input * Fed).
Variable registerSubscription :
  string -> string -> Fed -> outcome (Input * Fed).

(** [registerGlobalPublication<X> (key, units)] *)
Definition registerGlobalPublication_X (X : ValueType) (key units : string) :=
  registerGlobalPublication key (ValueConverter_type X) units.

(** [registerGlobalInput<X> (key, units)] *)
Definition registerGlobalInput_X (X : ValueType) (key units : string) :=
  registerGlobalInput key (ValueConverter_type X) units.

Definition registerPublicationIndexed (X : ValueType) (key : string)
    (index1 : Z) (units : string) :=
  registerGlobalPublication_X X ((key +:+ "_") +:+ to_string index1) units.

Definition registerPublicationIndexed2 (X : ValueType) (key : string)
    (index1 index2 : Z) (units : string) :=
  registerGlobalPublication_X X
    ((((key +:+ "_") +:+ to_string index1) +:+ "_") +:+ to_string index2) units.

Definition registerInputIndexed (X : ValueType) (key : string)
    (index1 : Z) (units : string) :=
  registerGlobalInput_X X ((key +:+ "_") +:+ to_string index1) units.

Definition registerInputIndexed2 (X : ValueType) (key : string)
    (index1 index2 : Z) (units : string) :=
  registerGlobalInput_X X
    ((((key +:+ "_") +:+ to_string index1) +:+ "_") +:+ to_string index2) units.

Definition registerSubscriptionIndexed (target : string) (index1 : Z)
    (units : string) :=
  registerSubscription ((target +:+ "_") +:+ to_string index1) units.

Definition registerSubscriptionIndexed2 (target : string) (index1 index2 : Z)
    (units : string) :=
  registerSubscription
    ((((target +:+ "_") +:+ to_string index1) +:+ "_") +:+ to_string index2) units.
End Registration.

(** The key the design document gives an indexed interface: the key, an
    underscore and the index, once or twice. *)
Definition suffixed1 (key : string) (i1 : Z) : string :=
  key +:+ "_" +:+ to_string i1.

Definition suffixed2 (key : string) (i1 i2 : Z) : string :=
  key +:+ "_" +:+ to_string i1 +:+ "_" +:+ to_string i2.

(** In the federate state [fed] the registration tells keys apart: two
    calls with different keys do not have the same result.  A registration
    that hands back the interface it created does so while the federate
    accepts registrations, and does not once it refuses them all. *)
Definition tells_keys_apart {Fed A : Type}
    (register : string -> Fed -> outcome A) (fed : Fed) : Prop :=
  forall key1 key2 : string, register key1 fed = register key2 fed -> key1 = key2.

End ValueFederate.

(** ** NetworkBrokerData *)

Module NetworkBrokerData.

Inductive InterfaceNetworks : Type := LOCAL | IPV4 | IPV6 | ALL.

Definition InterfaceNetworks_code (n : InterfaceNetworks) : Z :=
  match n with LOCAL => 0 | IPV4 => 4 | IPV6 => 6 | ALL => 10 end.

Inductive InterfaceTypes : Type := TCP | UDP | IP | IPC | INPROC.

Definition InterfaceTypes_code (i : InterfaceTypes) : Z :=
  match i with TCP => 0 | UDP => 1 | IP => 2 | IPC => 3 | INPROC => 4 end.

Inductive ServerModeOptions : Type :=
  | UNSPECIFIED
  | SERVER_DEFAULT_ACTIVE
  | SERVER_DEFAULT_DEACTIVATED
  | SERVER_ACTIVE
  | SERVER_DEACTIVATED.

Definition ServerModeOptions_code (m : ServerModeOptions) : Z :=
  match m with
  | UNSPECIFIED => 0
  | SERVER_DEFAULT_ACTIVE => 1
  | SERVER_DEFAULT_DEACTIVATED => 2
  | SERVER_ACTIVE => 3
  | SERVER_DEACTIVATED => 4
  end.

Record t : Type := mk {
  brokerName : string;
  brokerAddress : string;
  localInterface : string;
  brokerInitString : string;
  connectionAddress : string;
  portNumber : Z;
  brokerPort : Z;
  connectionPort : Z;
  portStart : Z;
  maxMessageSize : Z;
  maxMessageCount : Z;
  maxRetries : Z;
  interfaceNetwork : InterfaceNetworks;
  reuse_address : bool;
  use_os_port : bool;
  autobroker : bool;
  appendNameToAddress : bool;
  noAckConnection : bool;
  useJsonSerialization : bool;
  server_mode : ServerModeOptions;
  allowedType : InterfaceTypes
}.

(** [explicit NetworkBrokerData (InterfaceTypes type)]: the member
    initialisers of the class, with [allowedType] from the argument. *)
Definition make (type : InterfaceTypes) : t :=
  {| brokerName := ""; brokerAddress := ""; localInterface := "";
     brokerInitString := ""; connectionAddress := "";
     portNumber := -1; brokerPort := -1; connectionPort := -1;
     portStart := -1;
     maxMessageSize := 16 * 256;
     maxMessageCount := 256;
     maxRetries := 5;
     interfaceNetwork := LOCAL;
     reuse_address := false; use_os_port := false; autobroker := false;
     appendNameToAddress := false; noAckConnection := false;
     useJsonSerialization := false;
     server_mode := UNSPECIFIED;
     allowedType := type |}.

(** [NetworkBrokerData () = default]: [allowedType] takes its own member
    initialiser, [InterfaceTypes::IP]. *)
Definition default : t := make IP.

Definition setInterfaceType (type : InterfaceTypes) (d : t) : t :=
  {| brokerName := brokerName d; brokerAddress := brokerAddress d;
     localInterface := localInterface d;
     brokerInitString := brokerInitString d;
     connectionAddress := connectionAddress d;
     portNumber := portNumber d; brokerPort := brokerPort d;
     connectionPort := connectionPort d; portStart := portStart d;
     maxMessageSize := maxMessageSize d;
     maxMessageCount := maxMessageCount d;
     maxRetries := maxRetries d;
     interfaceNetwork := interfaceNetwork d;
     reuse_address := reuse_address d; use_os_port := use_os_port d;
     autobroker := autobroker d;
     appendNameToAddress := appendNameToAddress d;
     noAckConnection := noAckConnection d;
     useJsonSerialization := useJsonSerialization d;
     server_mode := server_mode d;
     allowedType := type |}.

(** A port field holding [-1] is unassigned. *)
Definition unassigned (port : Z) : bool := port =? -1.

End NetworkBrokerData.

(** ** A concrete broker, for the examples *)

Module Fixture.

(** The error flag sits at bit 4; commands with a negative code are
    priority commands; the pretty printer shows the payload. *)
Definition defs : ActionMessageDefs :=
  {| error_flag := 4;
     error_flag_range := conj (proj1 (Z.leb_le 0 4) eq_refl)
                              (proj1 (Z.ltb_lt 4 16) eq_refl);
     isPriorityCommand := fun m =>
       match action m with CMD_DOMAIN c => c <? 0 | _ => false end;
     prettyPrintString := payload |}.

(** Hooks that leave the broker and the command alone. *)
Definition quiet : BrokerBase.Hooks :=
  {| BrokerBase.processCommand := fun m b => (m, b);
     BrokerBase.processPriorityCommand := fun m b => (m, b);
     BrokerBase.processDisconnect := fun b => b |}.

Definition file_logger : Logger :=
  {| running := true; consoleLevel := 1; fileLevel := 1; outFile := None |}.

Definition broker (halt dump : bool) : BrokerBase.t :=
  {| BrokerBase.identifier := "broker";
     BrokerBase.global_broker_id := 1;
     BrokerBase._min_federates := 1;
     BrokerBase._min_brokers := 1;
     BrokerBase._maxIterations := 10000;
     BrokerBase.maxLogLevel := 1;
     BrokerBase.consoleLogLevel := 1;
     BrokerBase.fileLogLevel := 1;
     BrokerBase.logFile := "";
     BrokerBase.timeout := 30000;
     BrokerBase.tickTimer := 4000;
     BrokerBase.dumplog := dump;
     BrokerBase.noAutomaticID := false;
     BrokerBase.haltOperations := halt;
     BrokerBase.mainLoopIsRunning := false;
     BrokerBase.loggerFunction := None;
     BrokerBase.loggingObj := Some file_logger;
     BrokerBase.timeCoord := true;
     BrokerBase._queue := emptyQueue;
     BrokerBase._queue_processing_thread := true |}.

(** The same broker with a user logger function installed. *)
Definition callback : LoggerFunction := user_logger "callback".

Definition broker_with_callback : BrokerBase.t :=
  BrokerBase.set_loggerFunction (Some callback) (broker false false).

Definition tick : ActionMessage := ActionMessage_of CMD_TICK.

(** The same tick with the error flag attached. *)
Definition flagged_tick : ActionMessage :=
  SET_ACTION_FLAG (ActionMessage_of CMD_TICK) (@error_flag defs).
Definition ignore : ActionMessage := ActionMessage_of CMD_IGNORE.
Definition stop : ActionMessage := ActionMessage_of CMD_STOP.
Definition terminate : ActionMessage := ActionMessage_of CMD_TERMINATE_IMMEDIATELY.

(** A domain command from node 2 to node 1. *)
Definition data : ActionMessage :=
  {| action := CMD_DOMAIN 52; source_id := 2; dest_id := 1; flags := 0;
     payload := "pub" |}.

(** The run that pops [CMD_TERMINATE_IMMEDIATELY] first. *)
Definition terminate_trace : list event :=
  BrokerBase.trace (BrokerBase.final_state
    (BrokerBase.queueProcessingLoop (D := defs) (H := quiet) [terminate]
       (broker false false))).

(** The dispatcher, dump log on, blocked after it has processed [data]. *)
Definition blocked_after_data : BrokerBase.LoopState :=
  BrokerBase.final_state
    (BrokerBase.loop_from (D := defs) (H := quiet) [data]
       (BrokerBase.loop_entry (broker false true))).

(** The run of a halted broker that pops [CMD_STOP] first. *)
Definition halted_stop_run : BrokerBase.loop_result :=
  BrokerBase.queueProcessingLoop (D := defs) (H := quiet) [stop] (broker true true).

(** The options of [--federates 3 --min 7 --name alpha --loglevel 2]. *)
Definition cmdline : gmap string BrokerBase.po_value :=
  <["federates" := BrokerBase.po_int 3]>
    (<["min" := BrokerBase.po_int 7]>
       (<["name" := BrokerBase.po_string "alpha"]>
          (<["loglevel" := BrokerBase.po_int 2]> ∅))).

(** A federate: whether it is still starting up, and the keys registered
    with it, newest first.  Registration is refused once start-up is over;
    the handle of an interface is its key. *)
Definition federate : Type := bool * list string.

Definition starting : federate := (true, []).

Definition register_key (key type units : string) (fed : federate)
    : outcome (string * federate) :=
  if fst fed then Normal (key, (true, key :: snd fed))
  else Throws (std_exception "invalid state").

Definition register_target (target units : string) (fed : federate)
    : outcome (string * federate) :=
  if fst fed then Normal (target, (true, target :: snd fed))
  else Throws (std_exception "invalid state").

(** A broker that has no file logger. *)
Definition broker_without_logger : BrokerBase.t :=
  BrokerBase.set_loggingObj None (broker false false).

End Fixture.

(** * Properties *)

(** ** Integers, strings and flags *)

Lemma int_wrap_small z : - 2 ^ 31 <= z < 2 ^ 31 -> int_wrap z = z.
Proof.
  intros Hz. unfold int_wrap.
  rewrite Z.mod_small by lia. lia.
Qed.

Lemma int_incr_small z : 0 <= z < 2 ^ 31 - 1 -> int_incr z = z + 1.
Proof. intros Hz. unfold int_incr. apply int_wrap_small. lia. Qed.

Lemma append_assoc (s1 s2 s3 : string) :
  (s1 +:+ s2) +:+ s3 = s1 +:+ (s2 +:+ s3).
Proof.
  induction s1 as [|c s1 IH]; [reflexivity |].
  change (String c ((s1 +:+ s2) +:+ s3) = String c (s1 +:+ (s2 +:+ s3))).
  f_equal; exact IH.
Qed.

Lemma to_string_inj (i j : Z) : to_string i = to_string j -> i = j.
Proof. unfold to_string. apply (inj pretty). Qed.

Lemma CHECK_SET_ACTION_FLAG (m : ActionMessage) (flag : Z) :
  0 <= flag < 16 -> CHECK_ACTION_FLAG (SET_ACTION_FLAG m flag) flag = true.
Proof.
  intros Hf. unfold CHECK_ACTION_FLAG, SET_ACTION_FLAG; simpl.
  apply negb_true_iff, Z.eqb_neq. intros Heq.
  assert (Hbit : Z.testbit
            (Z.land (Z.land (Z.lor (flags m) (Z.shiftl 1 flag)) (Z.ones 16))
                    (Z.shiftl 1 flag)) flag = false)
    by (rewrite Heq; apply Z.bits_0).
  rewrite !Z.land_spec, Z.lor_spec in Hbit.
  rewrite Z.shiftl_spec, Z.sub_diag, Z.ones_spec_low in Hbit by lia.
  simpl in Hbit. rewrite orb_true_r in Hbit. discriminate.
Qed.

Lemma CHECK_ACTION_FLAG_fresh (a : action_t) (flag : Z) :
  CHECK_ACTION_FLAG (ActionMessage_of a) flag = false.
Proof. reflexivity. Qed.

Lemma action_SET_ACTION_FLAG (m : ActionMessage) (flag : Z) :
  action (SET_ACTION_FLAG m flag) = action m.
Proof. reflexivity. Qed.

(** ** The command queue *)

(** Two normal pushes and a priority push: the priority command is served
    first, then the normal ones in the order they were pushed. *)
Example pop_priority_first :
  let q := pushPriority Fixture.stop (push Fixture.tick (push Fixture.data emptyQueue)) in
  queued q = [Fixture.stop; Fixture.data; Fixture.tick] /\
  (fst <$> pop q) = Some Fixture.stop /\
  (fst <$> (pop q ≫= fun '(_, q1) => pop q1)) = Some Fixture.data /\
  (fst <$> (pop q ≫= fun '(_, q1) => pop q1 ≫= fun '(_, q2) => pop q2))
    = Some Fixture.tick /\
  pop emptyQueue = None.
Proof. repeat split; reflexivity. Qed.

(** ** NetworkBrokerData *)

Module NetworkBrokerDataFacts.
Import NetworkBrokerData.

(** C9.  A default-constructed [NetworkBrokerData] has each of its four
    port fields equal to [-1], which is the unassigned value, a maximum
    message size of [16 * 256], a maximum message count of [256] and [5]
    retries. *)
Theorem default_ports_and_limits :
  portNumber default = -1 /\ brokerPort default = -1 /\
  connectionPort default = -1 /\ portStart default = -1 /\
  forallb unassigned
    [portNumber default; brokerPort default; connectionPort default;
     portStart default] = true /\
  maxMessageSize default = 16 * 256 /\
  maxMessageCount default = 256 /\
  maxRetries default = 5.
Proof. repeat split; reflexivity. Qed.

(** The constructor from an interface type gives the same ports and limits. *)
Lemma make_ports_and_limits (type : InterfaceTypes) :
  portNumber (make type) = portNumber default /\
  brokerPort (make type) = brokerPort default /\
  connectionPort (make type) = connectionPort default /\
  portStart (make type) = portStart default /\
  maxMessageSize (make type) = 4096 /\
  maxMessageCount (make type) = maxMessageCount default /\
  maxRetries (make type) = maxRetries default /\
  allowedType (make type) = type.
Proof. repeat split; reflexivity. Qed.

Lemma setInterfaceType_default (type : InterfaceTypes) :
  setInterfaceType type default = make type.
Proof. reflexivity. Qed.

End NetworkBrokerDataFacts.

(** ** Indexed registration *)

Module ValueFederateFacts.
Import ValueFederate.

Section Registration.
Context {Fed Publication Input ValueType : Type}.
Variable ValueConverter_type : ValueType -> string.
Variable registerGlobalPublication :
  string -> string -> string -> Fed -> outcome (Publication * Fed).
Variable registerGlobalInput :
  string -> string -> string -> Fed -> outcome (Input * Fed).
Variable registerSubscription :
  string -> string -> Fed -> outcome (Input * Fed).

(** C8.  Each indexed registration is the global registration (for a
    subscription, the plain subscription) of the key followed by an
    underscore and the index, or by both indices each after an
    underscore: it yields the same handle and the same federate, or
    throws the same exception, whatever the federate is. *)
Theorem indexed_registration_suffixes_key
    (X : ValueType) (key units : string) (i1 i2 : Z) (fed : Fed) :
  registerPublicationIndexed ValueConverter_type registerGlobalPublication
      X key i1 units fed
    = registerGlobalPublication (suffixed1 key i1) (ValueConverter_type X) units fed /\
  registerPublicationIndexed2 ValueConverter_type registerGlobalPublication
      X key i1 i2 units fed
    = registerGlobalPublication (suffixed2 key i1 i2) (ValueConverter_type X) units fed /\
  registerInputIndexed ValueConverter_type registerGlobalInput X key i1 units fed
    = registerGlobalInput (suffixed1 key i1) (ValueConverter_type X) units fed /\
  registerInputIndexed2 ValueConverter_type registerGlobalInput X key i1 i2 units fed
    = registerGlobalInput (suffixed2 key i1 i2) (ValueConverter_type X) units fed /\
  registerSubscriptionIndexed registerSubscription key i1 units fed
    = registerSubscription (suffixed1 key i1) units fed /\
  registerSubscriptionIndexed2 registerSubscription key i1 i2 units fed
    = registerSubscription (suffixed2 key i1 i2) units fed.
Proof.
  unfold registerPublicationIndexed, registerPublicationIndexed2,
    registerInputIndexed, registerInputIndexed2,
    registerSubscriptionIndexed, registerSubscriptionIndexed2,
    registerGlobalPublication_X, registerGlobalInput_X, suffixed1, suffixed2.
  rewrite !append_assoc. repeat split; reflexivity.
Qed.
End Registration.

(** Distinct indices give distinct keys. *)
Lemma suffixed1_inj (key : string) (i j : Z) :
  suffixed1 key i = suffixed1 key j -> i = j.
Proof.
  unfold suffixed1. intros Heq.
  apply (inj (String.append key)) in Heq.
  apply (inj (String.append "_")) in Heq.
  now apply to_string_inj.
Qed.

Example suffixed1_pub_3 : suffixed1 "pub" 3 = "pub_3".
Proof. reflexivity. Qed.

Example suffixed1_negative : suffixed1 "pub" (-1) = "pub_-1".
Proof. reflexivity. Qed.

Example suffixed2_grid_12_7 : suffixed2 "grid" 12 7 = "grid_12_7".
Proof. reflexivity. Qed.

End ValueFederateFacts.

(** ** Logging *)

Module LoggingFacts.
Import BrokerBase.

Lemma owns_log_stream_test (b : t) (federateID : Z) :
  (federateID =? 0) || (federateID =? global_broker_id b) = true
  <-> owns_log_stream b federateID.
Proof.
  unfold owns_log_stream.
  rewrite orb_true_iff, !Z.eqb_eq. reflexivity.
Qed.

Lemma sendToLogger_foreign (b : t) (federateID logLevel : Z) (name message : string) :
  ~ owns_log_stream b federateID ->
  sendToLogger b federateID logLevel name message = (false, []).
Proof.
  intros Hno. unfold sendToLogger.
  destruct ((federateID =? 0) || (federateID =? global_broker_id b)) eqn:E;
    [| reflexivity].
  apply owns_log_stream_test in E. contradiction.
Qed.

Lemma sendToLogger_owned (b : t) (federateID logLevel : Z) (name message : string) :
  owns_log_stream b federateID ->
  sendToLogger b federateID logLevel name message =
    if logLevel >? maxLogLevel b then (true, [])
    else match loggerFunction b with
         | Some f => (true, [EvLoggerFunction f logLevel name message])
         | None =>
             match loggingObj b with
             | Some _ => (true, [EvLoggingObjLog logLevel (name +:+ "::" +:+ message)])
             | None => (true, [])
             end
         end.
Proof.
  intros Hown. apply owns_log_stream_test in Hown.
  unfold sendToLogger. now rewrite Hown.
Qed.

Lemma sendToLogger_owned_true (b : t) (federateID logLevel : Z) (name message : string) :
  owns_log_stream b federateID ->
  fst (sendToLogger b federateID logLevel name message) = true.
Proof.
  intros Hown. rewrite sendToLogger_owned by assumption.
  destruct (logLevel >? maxLogLevel b); [reflexivity |].
  destruct (loggerFunction b); [reflexivity |].
  destruct (loggingObj b); reflexivity.
Qed.

Lemma sendToLogger_dropped (b : t) (federateID logLevel : Z) (name message : string) :
  maxLogLevel b < logLevel ->
  snd (sendToLogger b federateID logLevel name message) = [].
Proof.
  intros Hlvl. unfold sendToLogger.
  destruct ((federateID =? 0) || (federateID =? global_broker_id b)); [| reflexivity].
  destruct (Z.gtb_spec logLevel (maxLogLevel b)); [reflexivity | lia].
Qed.

(** Installing a non-empty logger function never fails, keeps what
    [sendToLogger] reads and leaves the file logger, if any, halted. *)
Lemma setLoggerFunction_install (f : LoggerFunction) (b : t) :
  exists b', setLoggerFunction (Some f) b = Some b' /\
    loggerFunction b' = Some f /\
    maxLogLevel b' = maxLogLevel b /\
    global_broker_id b' = global_broker_id b /\
    (forall l, loggingObj b' = Some l -> isRunning l = false).
Proof.
  destruct b as [i g mf mb mi ml cl fl lf to tt dl na ho mr lfn lo tc q th].
  unfold setLoggerFunction; simpl.
  destruct lo as [l|]; simpl.
  - destruct (isRunning l) eqn:Erun; eexists; (split; [reflexivity |]); simpl;
      repeat split; intros l' Hl'; inversion Hl'; subst; auto.
  - eexists; split; [reflexivity |]; simpl; repeat split; intros l' Hl'; discriminate.
Qed.

(** Installing a logger function keeps the file logger the broker has,
    with its levels and its file, and leaves it halted; a broker without
    one stays without. *)
Lemma setLoggerFunction_install_logger (f : LoggerFunction) (b b' : t) :
  setLoggerFunction (Some f) b = Some b' ->
  (forall l, loggingObj b = Some l ->
     exists l', loggingObj b' = Some l' /\ isRunning l' = false /\
       consoleLevel l' = consoleLevel l /\ fileLevel l' = fileLevel l /\
       outFile l' = outFile l) /\
  (loggingObj b = None -> loggingObj b' = None).
Proof.
  destruct b as [i g mf mb mi ml cl fl lf to tt dl na ho mr lfn lo tc q th].
  unfold setLoggerFunction; simpl.
  destruct lo as [l|]; simpl.
  - destruct (isRunning l) eqn:Erun; intros Hset; injection Hset as <-; simpl;
      (split; [| discriminate]); intros l0 Hl0; injection Hl0 as <-;
      eexists; (split; [reflexivity |]); auto.
  - intros Hset; injection Hset as <-; simpl. split; [discriminate | reflexivity].
Qed.

(** C6.  [sendToLogger] returns [true] exactly when the federate id is [0]
    or the broker's global id, and otherwise returns [false] without
    logging.  When it proceeds with a level not above [maxLogLevel], an
    installed logger function receives the level, name and message, and
    the file logger does not; without a logger function the file logger,
    when the broker has one, receives the name, two colons and the
    message, and when it has none the call returns [true] and nothing is
    logged.  A level above [maxLogLevel] reaches neither.  Installing a
    logger function keeps the file logger the broker has and leaves it
    halted, and from then on the function is what [sendToLogger] calls. *)
Theorem sendToLogger_routes (b : t) (federateID logLevel : Z) (name message : string) :
  (fst (sendToLogger b federateID logLevel name message) = true
     <-> owns_log_stream b federateID) /\
  (~ owns_log_stream b federateID ->
     sendToLogger b federateID logLevel name message = (false, [])) /\
  (owns_log_stream b federateID -> logLevel <= maxLogLevel b ->
     forall f, loggerFunction b = Some f ->
       snd (sendToLogger b federateID logLevel name message)
         = [EvLoggerFunction f logLevel name message]) /\
  (owns_log_stream b federateID -> logLevel <= maxLogLevel b ->
     loggerFunction b = None -> is_Some (loggingObj b) ->
       snd (sendToLogger b federateID logLevel name message)
         = [EvLoggingObjLog logLevel (name +:+ "::" +:+ message)]) /\
  (owns_log_stream b federateID -> logLevel <= maxLogLevel b ->
     loggerFunction b = None -> loggingObj b = None ->
       sendToLogger b federateID logLevel name message = (true, [])) /\
  (maxLogLevel b < logLevel ->
     snd (sendToLogger b federateID logLevel name message) = []) /\
  (forall f, exists b', setLoggerFunction (Some f) b = Some b' /\
     (forall l, loggingObj b = Some l ->
        exists l', loggingObj b' = Some l' /\ isRunning l' = false /\
          consoleLevel l' = consoleLevel l /\ fileLevel l' = fileLevel l /\
          outFile l' = outFile l) /\
     (loggingObj b = None -> loggingObj b' = None) /\
     (owns_log_stream b federateID -> logLevel <= maxLogLevel b ->
        snd (sendToLogger b' federateID logLevel name message)
          = [EvLoggerFunction f logLevel name message])).
Proof.
  split; [| split; [| split; [| split; [| split; [| split]]]]].
  - split.
    + intros Htrue.
      destruct (decide (owns_log_stream b federateID)) as [Hown | Hno];
        [assumption |].
      rewrite sendToLogger_foreign in Htrue by assumption. discriminate.
    + apply sendToLogger_owned_true.
  - apply sendToLogger_foreign.
  - intros Hown Hlvl f Hf. rewrite sendToLogger_owned by assumption.
    destruct (Z.gtb_spec logLevel (maxLogLevel b)); [lia |].
    now rewrite Hf.
  - intros Hown Hlvl Hf [l Hl]. rewrite sendToLogger_owned by assumption.
    destruct (Z.gtb_spec logLevel (maxLogLevel b)); [lia |].
    now rewrite Hf, Hl.
  - intros Hown Hlvl Hf Hl. rewrite sendToLogger_owned by assumption.
    destruct (Z.gtb_spec logLevel (maxLogLevel b)); [lia |].
    now rewrite Hf, Hl.
  - apply sendToLogger_dropped.
  - intros f.
    destruct (setLoggerFunction_install f b) as (b' & Hset & Hf & Hmax & Hgid & Hhalt).
    destruct (setLoggerFunction_install_logger f b b' Hset) as (Hkeep & Hnone).
    exists b'. split; [assumption |]. split; [assumption |].
    split; [assumption |].
    intros Hown Hlvl.
    assert (Hown' : owns_log_stream b' federateID)
      by (unfold owns_log_stream in *; rewrite Hgid; assumption).
    rewrite sendToLogger_owned by assumption.
    destruct (Z.gtb_spec logLevel (maxLogLevel b')); [lia |].
    now rewrite Hf.
Qed.

(** C10.  For a federate id that is [0] or the broker's global id,
    [sendToLogger] returns [true] at every level: also above [maxLogLevel],
    where nothing is logged.  The result is the same for a dropped and for
    a logged message, and [false] is returned for a foreign id only. *)
Theorem sendToLogger_true_when_dropped (b : t) (federateID logLevel : Z)
    (name message : string) :
  (owns_log_stream b federateID ->
     fst (sendToLogger b federateID logLevel name message) = true /\
     (maxLogLevel b < logLevel ->
        sendToLogger b federateID logLevel name message = (true, [])) /\
     (forall otherLevel,
        fst (sendToLogger b federateID otherLevel name message)
          = fst (sendToLogger b federateID logLevel name message))) /\
  (fst (sendToLogger b federateID logLevel name message) = false ->
     ~ owns_log_stream b federateID).
Proof.
  split.
  - intros Hown. split; [now apply sendToLogger_owned_true |]. split.
    + intros Hlvl. rewrite sendToLogger_owned by assumption.
      destruct (Z.gtb_spec logLevel (maxLogLevel b)); [reflexivity | lia].
    + intros otherLevel. now rewrite !sendToLogger_owned_true.
  - intros Hfalse Hown.
    rewrite sendToLogger_owned_true in Hfalse by assumption. discriminate.
Qed.

Lemma sendToLogger_routes_witness :
  fst (sendToLogger (Fixture.broker false false) 1 0 "core" "hello") = true /\
  sendToLogger (Fixture.broker false false) 7 0 "core" "hello" = (false, []) /\
  snd (sendToLogger Fixture.broker_with_callback 0 1 "core" "hello")
    = [EvLoggerFunction Fixture.callback 1 "core" "hello"] /\
  snd (sendToLogger (Fixture.broker false false) 0 1 "core" "hello")
    = [EvLoggingObjLog 1 "core::hello"] /\
  sendToLogger Fixture.broker_without_logger 0 1 "core" "hello" = (true, []) /\
  snd (sendToLogger (Fixture.broker false false) 0 2 "core" "hello") = [] /\
  (exists b', setLoggerFunction (Some Fixture.callback) (Fixture.broker false false)
                = Some b' /\
     (exists l', loggingObj b' = Some l' /\ isRunning l' = false /\
        consoleLevel l' = 1 /\ fileLevel l' = 1 /\ outFile l' = None) /\
     snd (sendToLogger b' 0 1 "core" "hello")
       = [EvLoggerFunction Fixture.callback 1 "core" "hello"]).
Proof.
  split.
  { apply (proj1 (sendToLogger_routes (Fixture.broker false false) 1 0 "core" "hello")).
    right. reflexivity. }
  split.
  { apply (proj1 (proj2 (sendToLogger_routes (Fixture.broker false false) 7 0 "core" "hello"))).
    unfold owns_log_stream. simpl. lia. }
  split.
  { apply (proj1 (proj2 (proj2
      (sendToLogger_routes Fixture.broker_with_callback 0 1 "core" "hello")))).
    - left. reflexivity.
    - simpl. lia.
    - reflexivity. }
  split.
  { apply (proj1 (proj2 (proj2 (proj2
      (sendToLogger_routes (Fixture.broker false false) 0 1 "core" "hello"))))).
    - left. reflexivity.
    - simpl. lia.
    - reflexivity.
    - eexists. reflexivity. }
  split.
  { apply (proj1 (proj2 (proj2 (proj2 (proj2
      (sendToLogger_routes Fixture.broker_without_logger 0 1 "core" "hello")))))).
    - left. reflexivity.
    - simpl. lia.
    - reflexivity.
    - reflexivity. }
  split.
  { apply (proj1 (proj2 (proj2 (proj2 (proj2 (proj2
      (sendToLogger_routes (Fixture.broker false false) 0 2 "core" "hello"))))))).
    simpl. lia. }
  destruct (proj2 (proj2 (proj2 (proj2 (proj2 (proj2
      (sendToLogger_routes (Fixture.broker false false) 0 1 "core" "hello"))))))
      Fixture.callback) as (b' & Hset & Hkeep & _ & Hsend).
  exists b'. split; [exact Hset |].
  split; [exact (Hkeep Fixture.file_logger eq_refl) |].
  apply Hsend.
  - left. reflexivity.
  - simpl. lia.
Defined.

(** A broker that has neither a logger function nor a file logger: the
    message is its own and its level is not above [maxLogLevel], the call
    returns [true], and no sink receives anything. *)
Lemma sendToLogger_without_logger_logs_nothing :
  owns_log_stream Fixture.broker_without_logger 0 /\
  1 <= maxLogLevel Fixture.broker_without_logger /\
  loggerFunction Fixture.broker_without_logger = None /\
  loggingObj Fixture.broker_without_logger = None /\
  sendToLogger Fixture.broker_without_logger 0 1 "core" "hello" = (true, []).
Proof.
  split; [left; reflexivity |]. split; [simpl; lia |].
  repeat split; reflexivity.
Qed.

Lemma sendToLogger_true_when_dropped_witness :
  owns_log_stream (Fixture.broker false false) 1 /\
  maxLogLevel (Fixture.broker false false) < 5 /\
  sendToLogger (Fixture.broker false false) 1 5 "core" "hello" = (true, []) /\
  fst (sendToLogger (Fixture.broker false false) 1 0 "core" "hello")
    = fst (sendToLogger (Fixture.broker false false) 1 5 "core" "hello") /\
  ~ owns_log_stream (Fixture.broker false false) 7.
Proof.
  assert (Hown : owns_log_stream (Fixture.broker false false) 1)
    by (right; reflexivity).
  assert (Hlvl : maxLogLevel (Fixture.broker false false) < 5)
    by (simpl; lia).
  split; [exact Hown |]. split; [exact Hlvl |].
  destruct (proj1 (sendToLogger_true_when_dropped
                     (Fixture.broker false false) 1 5 "core" "hello") Hown)
    as (_ & Hdrop & Hsame).
  split; [exact (Hdrop Hlvl) |]. split; [exact (Hsame 0) |].
  apply (proj2 (sendToLogger_true_when_dropped
                  (Fixture.broker false false) 7 0 "core" "hello")).
  reflexivity.
Defined.

End LoggingFacts.

(** ** Argument intake *)

Module IntakeFacts.
Import BrokerBase.

(** An option [initializeFromCmdArgs] never looks up does not change what
    it does. *)
Lemma initializeFromCmdArgs_unread (other : string) (v : po_value)
    (vm : gmap string po_value) (fresh_id : string) (b : t) :
  other ∉ ["min"; "minfed"; "federates"; "minbroker"; "maxiter"; "name";
           "dumplog"; "identifier"; "loglevel"; "logfile"; "timeout"; "tick"] ->
  initializeFromCmdArgs (<[other := v]> vm) fresh_id b
    = initializeFromCmdArgs vm fresh_id b.
Proof.
  intros Hnot.
  unfold initializeFromCmdArgs, take_int, take_string, take_flag.
  rewrite !lookup_insert_ne by (intros ->; apply Hnot; set_solver).
  reflexivity.
Qed.

(** C7.  The values given for [fileloglevel] and [consoleloglevel] do not
    reach the broker: [initializeFromCmdArgs] does the same with and
    without them.  On the command line [--fileloglevel 5 --consoleloglevel
    3] the levels of the broker stay as they were and the logger is started
    with [maxLogLevel] for both, where [setLogLevels 3 5] gives a file
    level of [5], a console level of [3] and their maximum [5]. *)
Theorem log_level_options_ignored (vm : gmap string po_value)
    (fresh_id : string) (b : t) (fileLevel consoleLevel : po_value) :
  initializeFromCmdArgs
      (<["fileloglevel" := fileLevel]> (<["consoleloglevel" := consoleLevel]> vm))
      fresh_id b
    = initializeFromCmdArgs vm fresh_id b /\
  (exists b',
     initializeFromCmdArgs
         (<["fileloglevel" := po_int 5]> (<["consoleloglevel" := po_int 3]> ∅))
         "42-uuid" (Fixture.broker false false)
       = Normal b' /\
     fileLogLevel b' = 1 /\ consoleLogLevel b' = 1 /\ maxLogLevel b' = 1 /\
     loggingObj b' = Some (startLogging2 1 1 Logger_new)) /\
  (let b' := setLogLevels 3 5 (Fixture.broker false false) in
   fileLogLevel b' = 5 /\ consoleLogLevel b' = 3 /\ maxLogLevel b' = 5 /\
   loggingObj b' = Some (changeLevels 3 5 Fixture.file_logger)).
Proof.
  split; [| split].
  - rewrite !initializeFromCmdArgs_unread; first reflexivity;
      intros Hin; repeat (apply elem_of_cons in Hin as [Heq | Hin];
        [discriminate |]); inversion Hin.
  - eexists. split; [vm_compute; reflexivity |]. repeat split; reflexivity.
  - repeat split; reflexivity.
Qed.

End IntakeFacts.

(** ** The tick timer completion handler *)

Module TickHandlerFacts.
Import BrokerBase.

Section Handler.
Context {D : ActionMessageDefs}.

(** With the liveness flag down the handler does nothing at all. *)
Lemma timerTickHandler_inactive (fault : option exn) (error : error_code)
    (b : t) (cout : list string) :
  timerTickHandler fault false error b cout = Normal (b, cout).
Proof. reflexivity. Qed.

(** With the flag up and a queue that takes the message, the handler
    enqueues exactly one message. *)
Lemma timerTickHandler_enqueues (error : error_code) (b : t) (cout : list string) :
  let m := if error =? operation_aborted
           then SET_ACTION_FLAG (ActionMessage_of CMD_TICK) error_flag
           else ActionMessage_of CMD_TICK in
  timerTickHandler None true error b cout
    = Normal (set_queue (if isPriorityCommand m
                         then pushPriority m (_queue b)
                         else push m (_queue b)) b, cout).
Proof.
  unfold timerTickHandler, addActionMessage, addActionMessage_move,
    emplace, emplacePriority.
  destruct (error =? operation_aborted); simpl.
  - destruct (isPriorityCommand _); reflexivity.
  - destruct (isPriorityCommand _); reflexivity.
Qed.




(** An exception of the standard hierarchy thrown while enqueueing on a
    completion that is not a cancellation is caught; one line goes to the
    console and nothing is enqueued. *)
Lemma timerTickHandler_catches (what : string) (error : error_code)
    (b : t) (cout : list string) :
  error <> operation_aborted ->
  timerTickHandler (Some (std_exception what)) true error b cout
    = Normal (b, cout ++ ["exception caught from addActionMessage"]).
Proof.
  intros Hne. unfold timerTickHandler.
  destruct (Z.eqb_spec error operation_aborted); [contradiction |].
  reflexivity.
Qed.

(** C4.  On a cancelled completion the exception thrown while enqueueing
    leaves the handler: that branch has no handler for it.  On a
    successful completion the same exception is caught and reported on
    the console. *)
Theorem aborted_fire_propagates (what : string) (b : t) (cout : list string) :
  timerTickHandler (Some (std_exception what)) true operation_aborted b cout
    = Throws (std_exception what) /\
  timerTickHandler (Some (std_exception what)) true success b cout
    = Normal (b, cout ++ ["exception caught from addActionMessage"]).
Proof. split; reflexivity. Qed.
End Handler.


End TickHandlerFacts.

(** ** The dispatcher *)

Module DispatcherFacts.
Import BrokerBase.

(** *** Events *)

Lemma tick_forwarded_app (tr1 tr2 : list event) :
  tick_forwarded (tr1 ++ tr2) = tick_forwarded tr1 || tick_forwarded tr2.
Proof. apply existsb_app. Qed.

Lemma logger_calls_forward_no_tick (evs : list event) :
  forallb is_logger_call evs = true -> tick_forwarded evs = false.
Proof.
  induction evs as [|e evs IH]; [reflexivity |].
  simpl. intros Hall. apply andb_true_iff in Hall as [He Hall].
  rewrite (IH Hall). destruct e; try discriminate; reflexivity.
Qed.

Lemma active_after_app (tr evs : list event) :
  existsb is_active_store evs = false ->
  active_after (tr ++ evs) = active_after tr.
Proof.
  unfold active_after. rewrite fold_left_app.
  generalize (fold_left
    (fun a e => match e with EvActiveStore v => v | _ => a end) tr true).
  induction evs as [|e evs IH]; intros a Hno; [reflexivity |].
  simpl in Hno. apply orb_false_iff in Hno as [He Hno].
  simpl. rewrite IH by assumption. destruct e; try reflexivity; discriminate.
Qed.

Lemma active_after_store (tr evs : list event) (v : bool) :
  existsb is_active_store evs = false ->
  active_after (tr ++ EvActiveStore v :: evs) = v.
Proof.
  intros Hno.
  change (tr ++ EvActiveStore v :: evs) with (tr ++ [EvActiveStore v] ++ evs).
  rewrite app_assoc, active_after_app by assumption.
  unfold active_after. rewrite fold_left_app. reflexivity.
Qed.

Lemma logger_calls_store_nothing (evs : list event) :
  forallb is_logger_call evs = true -> existsb is_active_store evs = false.
Proof.
  induction evs as [|e evs IH]; [reflexivity |].
  simpl. intros Hall. apply andb_true_iff in Hall as [He Hall].
  rewrite (IH Hall). destruct e; try discriminate; reflexivity.
Qed.

Lemma last_mainLoopIsRunning_app (tr evs : list event) (v : bool) :
  forallb (fun e => match e with EvMainLoopIsRunning _ => false | _ => true end) evs
    = true ->
  last_mainLoopIsRunning (tr ++ EvMainLoopIsRunning v :: evs) = Some v.
Proof.
  intros Hno. unfold last_mainLoopIsRunning.
  rewrite fold_left_app. simpl.
  generalize v. clear v.
  induction evs as [|e evs IH]; intros v; [reflexivity |].
  simpl in Hno. apply andb_true_iff in Hno as [He Hno].
  simpl. destruct e; try discriminate; apply IH; assumption.
Qed.

Lemma existsb_take_false {A} (f : A -> bool) (l : list A) (n : nat) :
  existsb f l = false -> existsb f (take n l) = false.
Proof.
  revert n. induction l as [|x l IH]; intros [|n] Hno; try reflexivity.
  simpl in *. apply orb_false_iff in Hno as [Hx Hl].
  now rewrite Hx, IH.
Qed.

(** A callback that starts after the store sees the stored value. *)
Lemma active_after_take_store (pre after : list event) (v : bool) (k : nat) :
  existsb is_active_store after = false ->
  (length pre < k)%nat ->
  active_after (take k (pre ++ EvActiveStore v :: after)) = v.
Proof.
  intros Hno Hk.
  rewrite take_app_ge by lia.
  destruct (k - length pre)%nat as [|m] eqn:Em; [lia |].
  cbn [take]. apply active_after_store.
  now apply existsb_take_false.
Qed.

(** A callback that starts before the store sees the value from before. *)
Lemma active_after_take_before (pre mid rest : list event) (k : nat) :
  existsb is_active_store mid = false ->
  (length pre <= k <= length pre + length mid)%nat ->
  active_after (take k (pre ++ mid ++ rest)) = active_after pre.
Proof.
  intros Hno Hk.
  rewrite take_app_ge by lia.
  rewrite take_app_le by lia.
  apply active_after_app. now apply existsb_take_false.
Qed.

Section Dispatcher.
Context {D : ActionMessageDefs} {H : Hooks}.

(** *** What [sendToLogger] contributes to the dump *)

Lemma sendToLogger_logger_calls (b : t) (federateID logLevel : Z)
    (name message : string) :
  forallb is_logger_call (snd (sendToLogger b federateID logLevel name message))
    = true.
Proof.
  unfold sendToLogger.
  destruct ((federateID =? 0) || (federateID =? global_broker_id b));
    [| reflexivity].
  destruct (logLevel >? maxLogLevel b); [reflexivity |].
  destruct (loggerFunction b); [reflexivity |].
  destruct (loggingObj b); reflexivity.
Qed.

Lemma logDump_events_logger_calls (b : t) (dumped : list ActionMessage) :
  forallb is_logger_call (logDump_events b dumped) = true.
Proof.
  unfold logDump_events. destruct (dumplog b); [| reflexivity].
  induction dumped as [|act dumped IH]; [reflexivity |].
  simpl. rewrite forallb_app, IH, sendToLogger_logger_calls. reflexivity.
Qed.

(** *** Recording the popped command *)

Lemma record_pop_fields (command : ActionMessage) (s : LoopState) :
  bbase (record_pop command s) = bbase s /\
  trace (record_pop command s) = trace s /\
  messagesSinceLastTick (record_pop command s) = messagesSinceLastTick s /\
  dumpMessages (record_pop command s)
    = (if dumplog (bbase s) then dumpMessages s ++ [command] else dumpMessages s).
Proof.
  unfold record_pop. destruct (dumplog (bbase s)); repeat split; reflexivity.
Qed.

Lemma bbase_record_pop (command : ActionMessage) (s : LoopState) :
  bbase (record_pop command s) = bbase s.
Proof. apply record_pop_fields. Qed.

Lemma trace_record_pop (command : ActionMessage) (s : LoopState) :
  trace (record_pop command s) = trace s.
Proof. apply record_pop_fields. Qed.

Lemma counter_record_pop (command : ActionMessage) (s : LoopState) :
  messagesSinceLastTick (record_pop command s) = messagesSinceLastTick s.
Proof. apply record_pop_fields. Qed.

(** *** A popped tick *)

(** The broker after the tick: the hook ran only on an idle interval. *)
Lemma loop_body_tick (command : ActionMessage) (s : LoopState) :
  action command = CMD_TICK ->
  exists restart : list event,
    (restart = [] \/ restart = [EvReleaseServiceLoop; EvRunServiceLoop]) /\
    snd (loop_body command s) = false /\
    messagesSinceLastTick (fst (loop_body command s)) = 0 /\
    ticktimer (fst (loop_body command s))
      = Some (tickTimer (bbase (fst (loop_body command s)))) /\
    bbase (fst (loop_body command s))
      = (if messagesSinceLastTick s =? 0
         then snd (processCommand command (bbase s)) else bbase s) /\
    trace (fst (loop_body command s))
      = trace s
        ++ (if messagesSinceLastTick s =? 0 then [EvProcessCommand command] else [])
        ++ restart
        ++ [EvTimerExpiresAt (tickTimer (bbase (fst (loop_body command s))));
            EvTimerAsyncWait].
Proof.
  intros Hact. unfold loop_body. rewrite Hact.
  rewrite counter_record_pop.
  destruct (messagesSinceLastTick s =? 0).
  - unfold call_processCommand. rewrite bbase_record_pop.
    destruct (processCommand command (bbase s)) as [left_over b'].
    destruct (CHECK_ACTION_FLAG left_over error_flag).
    + exists [EvReleaseServiceLoop; EvRunServiceLoop]. cbn.
      rewrite trace_record_pop, <- !app_assoc. cbn. auto 10.
    + exists []. cbn. rewrite trace_record_pop, <- !app_assoc. cbn. auto 10.
  - destruct (CHECK_ACTION_FLAG command error_flag).
    + exists [EvReleaseServiceLoop; EvRunServiceLoop]. cbn.
      rewrite trace_record_pop, bbase_record_pop, <- !app_assoc. cbn. auto 10.
    + exists []. cbn. rewrite trace_record_pop, bbase_record_pop. auto 10.
Qed.

(** *** The other commands *)

Lemma loop_body_dumpMessages (command : ActionMessage) (s : LoopState) :
  dumpMessages (fst (loop_body command s)) = dumpMessages (record_pop command s).
Proof.
  unfold loop_body, call_processCommand, call_processPriorityCommand,
    call_processDisconnect, logDump, emit.
  destruct (action command); cbn;
    repeat match goal with
           | |- context [if ?c then _ else _] => destruct c; cbn
           | |- context [processCommand ?m ?b] => destruct (processCommand m b); cbn
           | |- context [processPriorityCommand ?m ?b] =>
               destruct (processPriorityCommand m b); cbn
           end; reflexivity.
Qed.

(** Only a tick can make the dispatcher hand a tick to [processCommand]. *)
Lemma loop_body_forwards_no_tick (command : ActionMessage) (s : LoopState) :
  action command <> CMD_TICK ->
  tick_forwarded (trace (fst (loop_body command s))) = tick_forwarded (trace s).
Proof.
  intros Hact.
  assert (Hdump : forall b l, tick_forwarded (logDump_events b l) = false)
    by (intros; apply logger_calls_forward_no_tick, logDump_events_logger_calls).
  unfold loop_body, call_processCommand, call_processPriorityCommand,
    call_processDisconnect, logDump, emit.
  destruct (action command) eqn:Ea; [congruence | | | |]; cbn;
    repeat match goal with
           | |- context [if ?c then _ else _] => destruct c; cbn
           | |- context [processCommand ?m ?b] => destruct (processCommand m b); cbn
           | |- context [processPriorityCommand ?m ?b] =>
               destruct (processPriorityCommand m b); cbn
           end;
    rewrite ?tick_forwarded_app, ?Hdump, ?trace_record_pop; cbn;
    rewrite ?Ea, ?orb_false_r; reflexivity.
Qed.

Lemma loop_body_keeps_running (command : ActionMessage) (s : LoopState) :
  keeps_running ->
  haltOperations (bbase s) = false ->
  snd (loop_body command s) = false ->
  haltOperations (bbase (fst (loop_body command s))) = false.
Proof.
  intros Hkeep Hhalt.
  destruct (Hkeep command (bbase s) Hhalt) as [Hpc Hppc].
  unfold loop_body, call_processCommand, call_processPriorityCommand,
    call_processDisconnect, logDump, emit.
  destruct (action command); cbn; rewrite ?bbase_record_pop, ?Hhalt; cbn;
    repeat (match goal with
            | |- context [if ?c then _ else _] => destruct c
            | |- context [processCommand ?m ?b] => destruct (processCommand m b)
            | |- context [processPriorityCommand ?m ?b] =>
                destruct (processPriorityCommand m b)
            end; cbn in *; rewrite ?bbase_record_pop);
    intros; try discriminate; auto.
Qed.

Lemma loop_body_counts (command : ActionMessage) (s : LoopState) :
  haltOperations (bbase s) = false ->
  messagesSinceLastTick (fst (loop_body command s)) =
    match action command with
    | CMD_TICK => 0
    | CMD_DOMAIN _ => int_incr (messagesSinceLastTick s)
    | _ => messagesSinceLastTick s
    end.
Proof.
  intros Hhalt.
  unfold loop_body, call_processCommand, call_processPriorityCommand,
    call_processDisconnect, logDump, emit.
  destruct (action command); cbn; rewrite ?bbase_record_pop, ?Hhalt; cbn;
    repeat match goal with
           | |- context [if ?c then _ else _] => destruct c; cbn
           | |- context [processCommand ?m ?b] => destruct (processCommand m b); cbn
           | |- context [processPriorityCommand ?m ?b] =>
               destruct (processPriorityCommand m b); cbn
           end; rewrite ?counter_record_pop; reflexivity.
Qed.

Lemma loop_body_returns (command : ActionMessage) (s : LoopState) :
  snd (loop_body command s) =
    match action command with
    | CMD_STOP | CMD_TERMINATE_IMMEDIATELY => true
    | _ => false
    end.
Proof.
  unfold loop_body, call_processCommand, call_processPriorityCommand,
    call_processDisconnect, logDump, emit.
  destruct (action command); cbn;
    repeat (match goal with
            | |- context [if ?c then _ else _] => destruct c
            | |- context [processCommand ?m ?b] => destruct (processCommand m b)
            | |- context [processPriorityCommand ?m ?b] =>
                destruct (processPriorityCommand m b)
            end; cbn); reflexivity.
Qed.

(** *** Ticks under load *)

Lemma loop_from_absorbs_ticks (popped : list ActionMessage) :
  keeps_running ->
  forall (s : LoopState) (seen : bool),
    haltOperations (bbase s) = false ->
    0 <= messagesSinceLastTick s ->
    messagesSinceLastTick s + Z.of_nat (length popped) < 2 ^ 31 ->
    (seen = true -> 0 < messagesSinceLastTick s) ->
    counted_before_each_tick seen popped = true ->
    tick_forwarded (trace s) = false ->
    tick_forwarded (trace (final_state (loop_from popped s))) = false.
Proof.
  intros Hkeep.
  induction popped as [|command rest IH];
    intros s seen Hhalt Hlo Hhi Hseen Hcnt Htr; [exact Htr |].
  cbn [loop_from].
  pose proof (loop_body_returns command s) as Hret.
  pose proof (loop_body_counts command s Hhalt) as Hcount.
  pose proof (loop_body_keeps_running command s Hkeep Hhalt) as Hhalt'.
  cbn [counted_before_each_tick] in Hcnt.
  rewrite length_cons, Nat2Z.inj_succ in Hhi.
  destruct (action command) eqn:Ea.
  - (* a tick: the counter is positive, the tick is absorbed *)
    apply andb_true_iff in Hcnt as [Hs Hcnt]. specialize (Hseen Hs).
    destruct (loop_body_tick command s Ea)
      as (restart & Hrestart & _ & _ & _ & _ & Htrace).
    destruct (Z.eqb_spec (messagesSinceLastTick s) 0) as [Hz | _]; [lia |].
    destruct (loop_body command s) as [s' returned]; cbn in *. subst returned.
    apply (IH s' false); auto; try lia; try discriminate.
    rewrite Htrace, !tick_forwarded_app, Htr.
    destruct Hrestart as [-> | ->]; reflexivity.
  - (* ignored *)
    pose proof (loop_body_forwards_no_tick command s) as Hsame.
    rewrite Ea in Hsame. specialize (Hsame ltac:(discriminate)).
    destruct (loop_body command s) as [s' returned]; cbn in *. subst returned.
    apply (IH s' seen); auto; try lia; try congruence;
      try (intros Hs; try discriminate Hs; try specialize (Hseen Hs); lia).
  - (* stop *)
    pose proof (loop_body_forwards_no_tick command s) as Hsame.
    rewrite Ea in Hsame. specialize (Hsame ltac:(discriminate)).
    destruct (loop_body command s) as [s' returned]; cbn in *. subst returned.
    cbn. congruence.
  - (* terminate *)
    pose proof (loop_body_forwards_no_tick command s) as Hsame.
    rewrite Ea in Hsame. specialize (Hsame ltac:(discriminate)).
    destruct (loop_body command s) as [s' returned]; cbn in *. subst returned.
    cbn. congruence.
  - (* a domain command is counted *)
    pose proof (loop_body_forwards_no_tick command s) as Hsame.
    rewrite Ea in Hsame. specialize (Hsame ltac:(discriminate)).
    rewrite int_incr_small in Hcount by lia.
    destruct (loop_body command s) as [s' returned]; cbn in *. subst returned.
    apply (IH s' true); auto; try lia; try congruence;
      try (intros Hs; try discriminate Hs; try specialize (Hseen Hs); lia).
Qed.

(** C1.  When a tick is popped, [processCommand] receives it exactly when
    the counter of dispatched messages is [0]; whether it does or not,
    the loop goes on with the counter at [0] and the timer armed again
    for [tickTimer] milliseconds.  Hence, in a run of fewer than [2^31]
    commands whose hooks leave [haltOperations] clear, if every tick
    comes after a domain command popped since the previous tick (since
    the start of the loop for the first tick), [processCommand] is never
    invoked with a tick. *)
Theorem tick_forwarded_only_when_idle :
  (forall (command : ActionMessage) (s : LoopState),
     action command = CMD_TICK ->
     exists restart : list event,
       (restart = [] \/ restart = [EvReleaseServiceLoop; EvRunServiceLoop]) /\
       snd (loop_body command s) = false /\
       messagesSinceLastTick (fst (loop_body command s)) = 0 /\
       ticktimer (fst (loop_body command s))
         = Some (tickTimer (bbase (fst (loop_body command s)))) /\
       trace (fst (loop_body command s))
         = trace s
           ++ (if messagesSinceLastTick s =? 0
               then [EvProcessCommand command] else [])
           ++ restart
           ++ [EvTimerExpiresAt (tickTimer (bbase (fst (loop_body command s))));
               EvTimerAsyncWait]) /\
  (forall (popped : list ActionMessage) (b : t),
     keeps_running ->
     haltOperations b = false ->
     Z.of_nat (length popped) < 2 ^ 31 ->
     counted_before_each_tick false popped = true ->
     tick_forwarded (trace (final_state (queueProcessingLoop popped b))) = false).
Proof.
  split.
  - intros command s Hact.
    destruct (loop_body_tick command s Hact)
      as (restart & Hrestart & Hret & Hcount & Htimer & _ & Htrace).
    exists restart. auto.
  - intros popped b Hkeep Hhalt Hlen Hcnt.
    unfold queueProcessingLoop.
    apply (loop_from_absorbs_ticks popped Hkeep (loop_entry b) false);
      auto; try discriminate.
    destruct b; exact Hhalt.
Qed.

(** *** Teardown *)

(** The events of an iteration that goes through the whole teardown. *)
Lemma loop_body_teardown_trace (command : ActionMessage) (s : LoopState) :
  completes_teardown command s ->
  trace (fst (loop_body command s))
    = trace s ++ EvTimerCancel :: between_cancel_and_store command
              ++ EvActiveStore false :: after_store command s.
Proof.
  intros [Hact | [Hact Hhalt]];
    unfold loop_body, between_cancel_and_store, after_store, broker_at_dump;
    rewrite Hact.
  - cbn. rewrite trace_record_pop, bbase_record_pop, <- !app_assoc, app_nil_r.
    reflexivity.
  - cbn. rewrite bbase_record_pop, Hhalt. cbn.
    unfold call_processCommand. cbn. rewrite bbase_record_pop.
    destruct (processCommand command (bbase s)) as [left_over b'].
    cbn. rewrite trace_record_pop, <- !app_assoc. reflexivity.
Qed.

Lemma after_store_stores_nothing (command : ActionMessage) (s : LoopState) :
  existsb is_active_store (after_store command s) = false.
Proof.
  unfold after_store. rewrite existsb_app, orb_false_iff. split.
  - apply logger_calls_store_nothing, logDump_events_logger_calls.
  - destruct (action command); reflexivity.
Qed.

(** C3.  On [CMD_TERMINATE_IMMEDIATELY], and on [CMD_STOP] with
    [haltOperations] clear, the dispatcher cancels the tick timer first
    and stores [false] in the liveness flag afterwards, once it has
    released the service loop, run [processCommand] (for [CMD_STOP]) and
    cleared [mainLoopIsRunning].  A callback that runs after the store
    finds the flag down and enqueues nothing; a callback that runs after
    the cancellation and before the store still finds the flag as it was
    before the teardown. *)
Theorem teardown_cancels_then_clears_flag (command : ActionMessage) (s : LoopState) :
  completes_teardown command s ->
  trace (fst (loop_body command s))
    = trace s ++ EvTimerCancel :: between_cancel_and_store command
              ++ EvActiveStore false :: after_store command s /\
  (forall (k : nat) (fault : option exn) (error : error_code) (b : t)
          (cout : list string),
     (length (trace s) + length (between_cancel_and_store command) + 2 <= k)%nat ->
     callback_at (trace (fst (loop_body command s))) k fault error b cout
       = Normal (b, cout)) /\
  (forall k : nat,
     (length (trace s) < k
        <= length (trace s) + length (between_cancel_and_store command) + 1)%nat ->
     active_after (take k (trace (fst (loop_body command s))))
       = active_after (trace s)).
Proof.
  intros Hdown.
  pose proof (loop_body_teardown_trace command s Hdown) as Htrace.
  pose proof (after_store_stores_nothing command s) as Hafter.
  set (after := after_store command s) in *.
  assert (Hquiet : existsb is_active_store
                     (EvTimerCancel :: between_cancel_and_store command) = false)
    by (unfold between_cancel_and_store; destruct (action command); reflexivity).
  split; [exact Htrace |]. split.
  - intros k fault error b cout Hk. unfold callback_at.
    rewrite Htrace.
    change (trace s ++ EvTimerCancel :: between_cancel_and_store command
              ++ EvActiveStore false :: after)
      with (trace s ++ (EvTimerCancel :: between_cancel_and_store command)
              ++ EvActiveStore false :: after).
    rewrite app_assoc, active_after_take_store; [reflexivity | assumption |].
    rewrite length_app. cbn [length]. lia.
  - intros k Hk. rewrite Htrace.
    change (trace s ++ EvTimerCancel :: between_cancel_and_store command
              ++ EvActiveStore false :: after)
      with (trace s ++ (EvTimerCancel :: between_cancel_and_store command)
              ++ EvActiveStore false :: after).
    apply active_after_take_before; [assumption |].
    cbn [length]. lia.
Qed.

(** *** Leaving the loop *)

Lemma loop_from_returned (popped : list ActionMessage) :
  forall s0 s' : LoopState,
    loop_from popped s0 = Returned s' ->
    exists pre command rest s,
      popped = pre ++ command :: rest /\
      loop_from pre s0 = Blocked s /\
      (action command = CMD_STOP \/ action command = CMD_TERMINATE_IMMEDIATELY) /\
      s' = fst (loop_body command s).
Proof.
  induction popped as [|c rest IH]; intros s0 s' Hrun; [discriminate |].
  cbn [loop_from] in Hrun.
  pose proof (loop_body_returns c s0) as Hret.
  destruct (loop_body c s0) as [s1 returned] eqn:Ebody. cbn in Hret.
  destruct (action c) eqn:Ea; subst returned;
    try (inversion Hrun; subst s1;
         exists [], c, rest, s0; rewrite Ebody; cbn; auto; fail);
    apply IH in Hrun as (pre & command & rest' & s & -> & Hpre & Hact & ->);
    exists (c :: pre), command, rest', s;
    (split; [reflexivity |]); (split; [| auto]);
    cbn [loop_from]; rewrite Ebody; exact Hpre.
Qed.

Lemma loop_from_then_return (pre : list ActionMessage) :
  forall (s0 s : LoopState) (command : ActionMessage) (rest : list ActionMessage),
    loop_from pre s0 = Blocked s ->
    snd (loop_body command s) = true ->
    loop_from (pre ++ command :: rest) s0 = Returned (fst (loop_body command s)).
Proof.
  induction pre as [|c pre IH]; intros s0 s command rest Hpre Hret.
  - inversion Hpre; subst s0. cbn [app loop_from].
    destruct (loop_body command s) as [s1 returned]; cbn in *.
    now subst returned.
  - cbn [app loop_from] in *.
    destruct (loop_body c s0) as [s1 [|]]; [discriminate |].
    now apply IH.
Qed.

Lemma loop_body_stops_timer (command : ActionMessage) (s : LoopState) :
  action command = CMD_STOP \/ action command = CMD_TERMINATE_IMMEDIATELY ->
  ticktimer (fst (loop_body command s)) = None /\
  serviceLoop (fst (loop_body command s)) = false.
Proof.
  unfold loop_body, call_processCommand, call_processDisconnect, logDump, emit.
  intros [-> | ->]; cbn;
    repeat (match goal with
            | |- context [if ?c then _ else _] => destruct c
            | |- context [processCommand ?m ?b] => destruct (processCommand m b)
            end; cbn); split; reflexivity.
Qed.

(** With [haltOperations] set, [CMD_STOP] cancels the timer, releases the
    service loop and returns. *)
Lemma loop_body_halted_stop (command : ActionMessage) (s : LoopState) :
  action command = CMD_STOP ->
  haltOperations (bbase s) = true ->
  bbase (fst (loop_body command s)) = bbase s /\
  trace (fst (loop_body command s))
    = trace s ++ [EvTimerCancel; EvReleaseServiceLoop].
Proof.
  intros Hact Hhalt. unfold loop_body. rewrite Hact. cbn.
  rewrite bbase_record_pop, Hhalt. cbn.
  rewrite bbase_record_pop, trace_record_pop, <- app_assoc. split; reflexivity.
Qed.

Lemma loop_body_teardown_clears_running (command : ActionMessage) (s : LoopState) :
  completes_teardown command s ->
  last_mainLoopIsRunning (trace (fst (loop_body command s))) = Some false.
Proof.
  intros Hdown. rewrite (loop_body_teardown_trace command s Hdown).
  assert (Hlog : forall b l,
            forallb (fun e => match e with EvMainLoopIsRunning _ => false | _ => true end)
                    (logDump_events b l) = true).
  { intros b l. pose proof (logDump_events_logger_calls b l) as Hcalls.
    induction (logDump_events b l) as [|e evs IH]; [reflexivity |].
    cbn in *. apply andb_true_iff in Hcalls as [He Hcalls].
    rewrite (IH Hcalls). destruct e; try discriminate; reflexivity. }
  assert (Hafter :
            forallb (fun e => match e with EvMainLoopIsRunning _ => false | _ => true end)
                    (EvActiveStore false :: after_store command s) = true).
  { unfold after_store. cbn. rewrite forallb_app, Hlog.
    destruct (action command); reflexivity. }
  set (after := after_store command s) in *.
  unfold between_cancel_and_store.
  destruct Hdown as [Hact | [Hact _]]; rewrite Hact.
  - change (trace s ++ EvTimerCancel :: [EvReleaseServiceLoop; EvMainLoopIsRunning false]
              ++ EvActiveStore false :: after)
      with (trace s ++ [EvTimerCancel; EvReleaseServiceLoop]
              ++ EvMainLoopIsRunning false :: EvActiveStore false :: after).
    rewrite app_assoc. now apply last_mainLoopIsRunning_app.
  - change (trace s ++ EvTimerCancel
              :: [EvReleaseServiceLoop; EvProcessCommand command;
                  EvMainLoopIsRunning false]
              ++ EvActiveStore false :: after)
      with (trace s ++ [EvTimerCancel; EvReleaseServiceLoop; EvProcessCommand command]
              ++ EvMainLoopIsRunning false :: EvActiveStore false :: after).
    rewrite app_assoc. now apply last_mainLoopIsRunning_app.
Qed.

Lemma mainLoopIsRunning_set (v : bool) (b : t) :
  mainLoopIsRunning (set_mainLoopIsRunning v b) = v.
Proof. destruct b; reflexivity. Qed.

(** The broker a complete teardown leaves behind. *)
Lemma loop_body_teardown_bbase (command : ActionMessage) (s : LoopState) :
  completes_teardown command s ->
  bbase (fst (loop_body command s))
    = match action command with
      | CMD_STOP => processDisconnect (broker_at_dump command s)
      | _ => broker_at_dump command s
      end.
Proof.
  intros [Hact | [Hact Hhalt]]; unfold loop_body, broker_at_dump; rewrite Hact.
  - cbn. rewrite bbase_record_pop. reflexivity.
  - cbn. rewrite bbase_record_pop, Hhalt. cbn.
    unfold call_processCommand. cbn. rewrite bbase_record_pop.
    destruct (processCommand command (bbase s)) as [left_over b']. reflexivity.
Qed.

(** *** The dump log *)

Lemma same_logging_refl (b : t) : same_logging b b.
Proof. unfold same_logging. tauto. Qed.

Lemma same_logging_trans (b1 b2 b3 : t) :
  same_logging b1 b2 -> same_logging b2 b3 -> same_logging b1 b3.
Proof.
  unfold same_logging.
  intros (Hd & Hi & Hm & Hf & Ho) (Hd' & Hi' & Hm' & Hf' & Ho').
  repeat split; try congruence; tauto.
Qed.

Lemma same_logging_set_mainLoopIsRunning (v : bool) (b : t) :
  same_logging b (set_mainLoopIsRunning v b).
Proof. destruct b. unfold same_logging. cbn. tauto. Qed.

Lemma loop_body_same_logging (command : ActionMessage) (s : LoopState) :
  keeps_logging ->
  snd (loop_body command s) = false ->
  same_logging (bbase s) (bbase (fst (loop_body command s))).
Proof.
  intros Hkeep.
  destruct (Hkeep command (bbase s)) as [Hpc Hppc].
  pose proof (same_logging_refl (bbase s)) as Hrefl.
  unfold loop_body, call_processCommand, call_processPriorityCommand,
    call_processDisconnect, logDump, emit.
  destruct (action command); cbn; rewrite ?bbase_record_pop;
    repeat (match goal with
            | |- context [if ?c then _ else _] => destruct c
            | |- context [processCommand ?m ?b] => destruct (processCommand m b)
            | |- context [processPriorityCommand ?m ?b] =>
                destruct (processPriorityCommand m b)
            end; cbn in *; rewrite ?bbase_record_pop);
    intros; try discriminate; auto.
Qed.

(** While the dump log is on, the commands popped so far are the ones
    recorded. *)
Lemma loop_from_blocked_dump (pre : list ActionMessage) :
  keeps_logging ->
  forall s0 s : LoopState,
    loop_from pre s0 = Blocked s ->
    dumplog (bbase s0) = true ->
    dumpMessages s = dumpMessages s0 ++ pre /\
    same_logging (bbase s0) (bbase s).
Proof.
  intros Hkeep.
  induction pre as [|c pre IH]; intros s0 s Hrun Hdump.
  - inversion Hrun; subst s0. rewrite app_nil_r.
    split; [reflexivity | apply same_logging_refl].
  - cbn [loop_from] in Hrun.
    pose proof (loop_body_same_logging c s0 Hkeep) as Hsame.
    pose proof (loop_body_dumpMessages c s0) as Hrec.
    destruct (record_pop_fields c s0) as (_ & _ & _ & Hpush).
    rewrite Hpush, Hdump in Hrec.
    destruct (loop_body c s0) as [s1 [|]]; [discriminate |]. cbn in *.
    specialize (Hsame eq_refl).
    assert (Hdump1 : dumplog (bbase s1) = true)
      by (destruct Hsame as (Hd & _); congruence).
    destruct (IH s1 s Hrun Hdump1) as [Hmsgs Hsame1].
    split.
    + rewrite Hmsgs, Hrec, <- app_assoc. reflexivity.
    + eapply same_logging_trans; eassumption.
Qed.

Lemma logDump_events_map (b b' : t) (dumped : list ActionMessage) :
  same_logging b b' ->
  dumplog b = true ->
  -10 <= maxLogLevel b ->
  logger_installed b ->
  logDump_events b' dumped = map (dump_event b) dumped.
Proof.
  intros (Hd & Hi & Hm & Hf & Ho) Hdump Hlvl Hinst.
  unfold logDump_events. rewrite Hd, Hdump.
  induction dumped as [|act dumped IH]; [reflexivity |].
  cbn [flat_map map]. rewrite IH. clear IH.
  unfold sendToLogger, dump_event. cbn [Z.eqb orb].
  rewrite Hm, Hf, Hi.
  destruct (Z.gtb_spec (-10) (maxLogLevel b)); [lia |].
  destruct (loggerFunction b) as [f|] eqn:Ef; [reflexivity |].
  destruct Hinst as [[f Hsome] | Hobj]; [congruence |].
  apply Ho in Hobj. destruct Hobj as [l ->]. reflexivity.
Qed.

Lemma loop_entry_same_logging (b : t) : same_logging b (bbase (loop_entry b)).
Proof. destruct b. unfold same_logging. cbn. tauto. Qed.

(** C5.  A run returns on a [CMD_STOP] or a [CMD_TERMINATE_IMMEDIATELY],
    and whenever it does the tick timer has been cancelled and the
    service loop released.  On [CMD_TERMINATE_IMMEDIATELY], and on
    [CMD_STOP] with [haltOperations] clear, the last store to
    [mainLoopIsRunning] is [false] and the field is [false] in the broker
    the loop leaves behind (the broker handed to [processDisconnect] for
    [CMD_STOP]); if moreover the dump log is on, the hooks leave the
    logging set-up alone, [maxLogLevel] is at least [-10] and a logger
    function or a file logger is installed, the run ends with one logger
    call at level [-10] for every command popped, in the order they were
    popped, carrying the dump line of the command (followed by
    [processDisconnect] for [CMD_STOP]). *)
Theorem loop_return_state :
  (forall (popped : list ActionMessage) (b : t) (s' : LoopState),
     queueProcessingLoop popped b = Returned s' ->
     exists pre command rest s,
       popped = pre ++ command :: rest /\
       loop_from pre (loop_entry b) = Blocked s /\
       (action command = CMD_STOP \/ action command = CMD_TERMINATE_IMMEDIATELY) /\
       s' = fst (loop_body command s)) /\
  (forall (pre : list ActionMessage) (command : ActionMessage)
          (rest : list ActionMessage) (b : t) (s : LoopState),
     loop_from pre (loop_entry b) = Blocked s ->
     action command = CMD_STOP \/ action command = CMD_TERMINATE_IMMEDIATELY ->
     queueProcessingLoop (pre ++ command :: rest) b
       = Returned (fst (loop_body command s)) /\
     ticktimer (fst (loop_body command s)) = None /\
     serviceLoop (fst (loop_body command s)) = false /\
     (completes_teardown command s ->
        last_mainLoopIsRunning (trace (fst (loop_body command s))) = Some false /\
        (exists left_behind : t,
           mainLoopIsRunning left_behind = false /\
           bbase (fst (loop_body command s))
             = match action command with
               | CMD_STOP => processDisconnect left_behind
               | _ => left_behind
               end) /\
        (keeps_logging -> dumplog b = true -> -10 <= maxLogLevel b ->
         logger_installed b ->
         exists before : list event,
           trace (fst (loop_body command s))
             = before ++ map (dump_event b) (pre ++ [command])
                      ++ match action command with
                         | CMD_STOP => [EvProcessDisconnect]
                         | _ => []
                         end))).
Proof.
  split.
  - intros popped b s' Hrun. now apply loop_from_returned.
  - intros pre command rest b s Hpre Hact.
    split.
    { apply loop_from_then_return; [exact Hpre |].
      rewrite loop_body_returns. destruct Hact as [-> | ->]; reflexivity. }
    destruct (loop_body_stops_timer command s Hact) as [Htimer Hserv].
    split; [exact Htimer |]. split; [exact Hserv |].
    intros Hdown. split; [now apply loop_body_teardown_clears_running |].
    split.
    + exists (broker_at_dump command s). split.
      * apply mainLoopIsRunning_set.
      * now apply loop_body_teardown_bbase.
    + intros Hkeep Hdump Hlvl Hinst.
      pose proof (loop_entry_same_logging b) as Hentry.
      assert (Hdump0 : dumplog (bbase (loop_entry b)) = true)
        by (destruct Hentry as (Hd & _); congruence).
      destruct (loop_from_blocked_dump pre Hkeep _ _ Hpre Hdump0) as [Hmsgs Hsame].
      pose proof (same_logging_trans _ _ _ Hentry Hsame) as Hbs.
      assert (Hdumps : dumplog (bbase s) = true)
        by (destruct Hbs as (Hd & _); congruence).
      assert (Hbd : same_logging b (broker_at_dump command s)).
      { unfold broker_at_dump.
        eapply same_logging_trans; [| apply same_logging_set_mainLoopIsRunning].
        destruct (action command); try exact Hbs.
        eapply same_logging_trans; [exact Hbs |].
        apply (Hkeep command (bbase s)). }
      rewrite (loop_body_teardown_trace command s Hdown).
      unfold after_store.
      rewrite (logDump_events_map b _ _ Hbd Hdump Hlvl Hinst).
      destruct (record_pop_fields command s) as (_ & _ & _ & Hpush).
      rewrite Hpush, Hdumps, Hmsgs. cbn [dumpMessages loop_entry
        set_messagesSinceLastTick arm_timer runServiceLoop
        store_mainLoopIsRunning app].
      exists (trace s ++ EvTimerCancel :: between_cancel_and_store command
                ++ [EvActiveStore false]).
      rewrite <- !app_assoc. cbn [app]. rewrite <- !app_assoc. reflexivity.
Qed.
End Dispatcher.

(** A run in which a domain command comes before every tick; both ticks
    are absorbed. *)
Lemma tick_forwarded_only_when_idle_witness :
  (action Fixture.tick = CMD_TICK /\
   messagesSinceLastTick
     (fst (loop_body (D := Fixture.defs) (H := Fixture.quiet) Fixture.tick
             (loop_entry (Fixture.broker false false)))) = 0) /\
  (Z.of_nat (length [Fixture.data; Fixture.tick; Fixture.data; Fixture.ignore;
                     Fixture.tick; Fixture.stop]) < 2 ^ 31 /\
   tick_forwarded
     (trace (final_state
        (queueProcessingLoop (D := Fixture.defs) (H := Fixture.quiet)
           [Fixture.data; Fixture.tick; Fixture.data; Fixture.ignore;
            Fixture.tick; Fixture.stop]
           (Fixture.broker false false)))) = false).
Proof.
  split.
  - split; [reflexivity |].
    destruct (proj1 (@tick_forwarded_only_when_idle Fixture.defs Fixture.quiet)
                Fixture.tick (loop_entry (Fixture.broker false false)) eq_refl)
      as (restart & _ & _ & Hcount & _).
    exact Hcount.
  - split; [cbn; lia |].
    apply (proj2 (@tick_forwarded_only_when_idle Fixture.defs Fixture.quiet)).
    + intros m b Hb. split; exact Hb.
    + reflexivity.
    + cbn. lia.
    + reflexivity.
Defined.

(** A run with a command between its ticks, [CMD_IGNORE] between the first
    and the second, in which [processCommand] receives the second tick. *)
Lemma ignored_command_does_not_count :
  no_adjacent_ticks [Fixture.data; Fixture.tick; Fixture.ignore; Fixture.tick] = true /\
  tick_forwarded
    (trace (final_state
       (queueProcessingLoop (D := Fixture.defs) (H := Fixture.quiet)
          [Fixture.data; Fixture.tick; Fixture.ignore; Fixture.tick]
          (Fixture.broker false false)))) = true.
Proof. split; reflexivity. Qed.

(** The teardown on [CMD_TERMINATE_IMMEDIATELY], first command of a run:
    the cancellation is the fifth action of the run and the store the
    eighth. *)
Lemma teardown_cancels_then_clears_flag_witness :
  completes_teardown Fixture.terminate (loop_entry (Fixture.broker false false)) /\
  callback_at (D := Fixture.defs)
      (trace (fst (loop_body (D := Fixture.defs) (H := Fixture.quiet)
                     Fixture.terminate (loop_entry (Fixture.broker false false)))))
      8 None operation_aborted (Fixture.broker false false) []
    = Normal (Fixture.broker false false, []) /\
  active_after
      (take 5 (trace (fst (loop_body (D := Fixture.defs) (H := Fixture.quiet)
                            Fixture.terminate
                            (loop_entry (Fixture.broker false false))))))
    = active_after (trace (loop_entry (Fixture.broker false false))).
Proof.
  assert (Hdown : completes_teardown Fixture.terminate
                    (loop_entry (Fixture.broker false false)))
    by (left; reflexivity).
  destruct (teardown_cancels_then_clears_flag (D := Fixture.defs) (H := Fixture.quiet)
              Fixture.terminate (loop_entry (Fixture.broker false false)) Hdown)
    as (_ & Hafter & Hbefore).
  split; [exact Hdown |]. split.
  - apply Hafter. cbn. lia.
  - apply Hbefore. cbn. lia.
Defined.

(** In the run that pops [CMD_TERMINATE_IMMEDIATELY] the timer is cancelled
    (action 4) before the flag is cleared (action 7), and the callback the
    cancellation completes, running right after it, finds the flag up and
    enqueues a tick. *)
Lemma callback_after_cancel_still_enqueues :
  Fixture.terminate_trace !! 4%nat = Some EvTimerCancel /\
  Fixture.terminate_trace !! 7%nat = Some (EvActiveStore false) /\
  callback_at (D := Fixture.defs) Fixture.terminate_trace 5 None operation_aborted
      (Fixture.broker false false) []
    = Normal (set_queue (push Fixture.flagged_tick emptyQueue)
                        (Fixture.broker false false), []).
Proof. repeat split; reflexivity. Qed.

(** The run [data; stop] with the dump log on, and the decomposition of
    the run of a halted broker that pops [CMD_STOP]. *)
Lemma loop_return_state_witness :
  (exists pre command rest s,
     [Fixture.stop] = pre ++ command :: rest /\
     loop_from (D := Fixture.defs) (H := Fixture.quiet) pre
       (loop_entry (Fixture.broker true true)) = Blocked s /\
     (action command = CMD_STOP \/ action command = CMD_TERMINATE_IMMEDIATELY) /\
     final_state Fixture.halted_stop_run
       = fst (loop_body (D := Fixture.defs) (H := Fixture.quiet) command s)) /\
  (queueProcessingLoop (D := Fixture.defs) (H := Fixture.quiet)
       ([Fixture.data] ++ Fixture.stop :: []) (Fixture.broker false true)
     = Returned (fst (loop_body (D := Fixture.defs) (H := Fixture.quiet)
                        Fixture.stop Fixture.blocked_after_data)) /\
   last_mainLoopIsRunning
       (trace (fst (loop_body (D := Fixture.defs) (H := Fixture.quiet)
                      Fixture.stop Fixture.blocked_after_data))) = Some false /\
   exists before : list event,
     trace (fst (loop_body (D := Fixture.defs) (H := Fixture.quiet)
                   Fixture.stop Fixture.blocked_after_data))
       = before ++ [EvLoggingObjLog (-10) "broker::|| dl cmd:pub from 2 to 1";
                    EvLoggingObjLog (-10) "broker::|| dl cmd: from 0 to 0"]
                ++ [EvProcessDisconnect]).
Proof.
  split.
  - apply (proj1 (loop_return_state (D := Fixture.defs) (H := Fixture.quiet))
             [Fixture.stop] (Fixture.broker true true)).
    reflexivity.
  - destruct (proj2 (loop_return_state (D := Fixture.defs) (H := Fixture.quiet))
                [Fixture.data] Fixture.stop [] (Fixture.broker false true)
                Fixture.blocked_after_data eq_refl (or_introl eq_refl))
      as (Hrun & _ & _ & Hdown).
    split; [exact Hrun |].
    destruct (Hdown (or_intror (conj eq_refl eq_refl))) as (Hstore & _ & Hdump).
    split; [exact Hstore |].
    apply Hdump.
    + intros m b. split; unfold same_logging; cbn; tauto.
    + reflexivity.
    + cbn. lia.
    + right. eexists. reflexivity.
Defined.

(** A halted broker pops [CMD_STOP]: the loop returns with
    [mainLoopIsRunning] still set and, the dump log being on, with the
    command recorded and no logger call made. *)
Lemma halted_stop_leaves_loop_running :
  has_returned Fixture.halted_stop_run = true /\
  mainLoopIsRunning (bbase (final_state Fixture.halted_stop_run)) = true /\
  last_mainLoopIsRunning (trace (final_state Fixture.halted_stop_run)) = Some true /\
  dumplog (bbase (final_state Fixture.halted_stop_run)) = true /\
  dumpMessages (final_state Fixture.halted_stop_run) = [Fixture.stop] /\
  existsb is_logger_call (trace (final_state Fixture.halted_stop_run)) = false.
Proof. repeat split; reflexivity. Qed.

End DispatcherFacts.

(** ** Runs of the dispatcher *)

Module RunFacts.
Import BrokerBase.
Import DispatcherFacts.

Lemma forallb_running_active (tr evs : list event) :
  forallb is_running_event evs = true ->
  active_after (tr ++ evs) = active_after tr.
Proof.
  intros Hrun. apply active_after_app.
  induction evs as [|e evs IH]; [reflexivity |].
  cbn in *. apply andb_true_iff in Hrun as [He Hrun].
  rewrite (IH Hrun). destruct e; try discriminate; reflexivity.
Qed.

Lemma forallb_running_mainLoop (tr evs : list event) :
  forallb is_running_event evs = true ->
  last_mainLoopIsRunning (tr ++ evs) = last_mainLoopIsRunning tr.
Proof.
  intros Hrun. unfold last_mainLoopIsRunning. rewrite fold_left_app.
  generalize (fold_left
    (fun a e => match e with EvMainLoopIsRunning v => Some v | _ => a end) tr None).
  induction evs as [|e evs IH]; intros a; [reflexivity |].
  cbn in *. apply andb_true_iff in Hrun as [He Hrun].
  rewrite IH by assumption. destruct e; try discriminate; reflexivity.
Qed.

Lemma forallb_running_no_logger (evs : list event) :
  forallb is_running_event evs = true -> existsb is_logger_call evs = false.
Proof.
  induction evs as [|e evs IH]; [reflexivity |].
  cbn. intros Hrun. apply andb_true_iff in Hrun as [He Hrun].
  rewrite (IH Hrun). destruct e; try discriminate; reflexivity.
Qed.

Lemma forallb_running_no_cancel (evs : list event) :
  forallb is_running_event evs = true -> EvTimerCancel ∉ evs.
Proof.
  induction evs as [|e evs IH]; [intros _ Hin; inversion Hin |].
  cbn. intros Hrun Hin. apply andb_true_iff in Hrun as [He Hrun].
  apply elem_of_cons in Hin as [<- | Hin]; [discriminate He | exact (IH Hrun Hin)].
Qed.

Section Run.
Context {D : ActionMessageDefs} {H : Hooks}.

Lemma record_pop_locals (command : ActionMessage) (s : LoopState) :
  active (record_pop command s) = active s /\
  serviceLoop (record_pop command s) = serviceLoop s /\
  ticktimer (record_pop command s) = ticktimer s.
Proof.
  unfold record_pop. destruct (dumplog (bbase s)); repeat split; reflexivity.
Qed.

(** An iteration that stays in the loop only calls hooks, restarts the
    service loop or arms the timer; it leaves the liveness flag alone and
    neither drops the service loop nor disarms the timer. *)
Lemma loop_body_running (command : ActionMessage) (s : LoopState) :
  snd (loop_body command s) = false ->
  exists evs : list event,
    trace (fst (loop_body command s)) = trace s ++ evs /\
    forallb is_running_event evs = true /\
    active (fst (loop_body command s)) = active s /\
    (serviceLoop s = true -> serviceLoop (fst (loop_body command s)) = true) /\
    (is_Some (ticktimer s) -> is_Some (ticktimer (fst (loop_body command s)))).
Proof.
  destruct (record_pop_locals command s) as (Hact & Hserv & Htimer).
  unfold loop_body, call_processCommand, call_processPriorityCommand,
    call_processDisconnect, logDump, emit.
  destruct (action command); cbn;
    repeat (match goal with
            | |- context [if ?c then _ else _] => destruct c
            | |- context [processCommand ?m ?b] => destruct (processCommand m b)
            | |- context [processPriorityCommand ?m ?b] =>
                destruct (processPriorityCommand m b)
            end; cbn);
    intros Hret; try discriminate Hret;
    rewrite ?trace_record_pop, ?Hact, ?Hserv, ?Htimer, <- ?app_assoc;
    first [ eexists; split; [reflexivity |]
          | exists []; split; [symmetry; apply app_nil_r |] ];
    cbn; repeat split; auto; intros; eexists; reflexivity.
Qed.

(** X1.  The loop returns exactly when one of the commands it is handed
    is [CMD_STOP] or [CMD_TERMINATE_IMMEDIATELY]; otherwise it ends up
    blocked in [pop], whatever the state it starts from. *)
Theorem loop_returns_iff_stopping_command (popped : list ActionMessage)
    (s : LoopState) :
  has_returned (loop_from popped s)
    = existsb (fun command => is_stopping (action command)) popped.
Proof.
  revert s. induction popped as [|command rest IH]; intros s; [reflexivity |].
  cbn [loop_from existsb].
  pose proof (loop_body_returns command s) as Hret.
  destruct (loop_body command s) as [s' returned]. cbn in Hret. subst returned.
  destruct (action command); cbn; auto.
Qed.

(** The invariant of a loop that has not returned. *)
Lemma loop_from_blocked_running (popped : list ActionMessage) :
  forall s s' : LoopState,
    loop_from popped s = Blocked s' ->
    exists evs : list event,
      trace s' = trace s ++ evs /\
      forallb is_running_event evs = true /\
      active s' = active s /\
      (serviceLoop s = true -> serviceLoop s' = true) /\
      (is_Some (ticktimer s) -> is_Some (ticktimer s')).
Proof.
  induction popped as [|command rest IH]; intros s s' Hrun.
  - inversion Hrun; subst s'. exists []. rewrite app_nil_r. auto.
  - cbn [loop_from] in Hrun.
    pose proof (loop_body_running command s) as Hstep.
    destruct (loop_body command s) as [s1 [|]]; [discriminate |]. cbn in Hstep.
    destruct (Hstep eq_refl) as (evs1 & Ht1 & Hr1 & Ha1 & Hs1 & Hm1).
    destruct (IH s1 s' Hrun) as (evs2 & Ht2 & Hr2 & Ha2 & Hs2 & Hm2).
    exists (evs1 ++ evs2). rewrite Ht2, Ht1, <- app_assoc, forallb_app, Hr1, Hr2.
    repeat split; auto. congruence.
Qed.

(** X3.  As long as the loop has not returned it holds the service loop,
    the liveness flag is up, the last value stored to [mainLoopIsRunning]
    is [true], and the loop has called [async_wait] on the tick timer and
    never [cancel]. *)
Theorem running_loop_holds_service_and_never_cancels
    (popped : list ActionMessage) (b : t) (s : LoopState) :
  queueProcessingLoop popped b = Blocked s ->
  serviceLoop s = true /\
  active s = true /\
  active_after (trace s) = true /\
  last_mainLoopIsRunning (trace s) = Some true /\
  EvTimerAsyncWait ∈ trace s /\
  EvTimerCancel ∉ trace s.
Proof.
  intros Hrun.
  destruct (loop_from_blocked_running popped _ _ Hrun)
    as (evs & Ht & Hr & Ha & Hs & Hm).
  split; [apply Hs; reflexivity |].
  split; [rewrite Ha; reflexivity |].
  rewrite Ht, forallb_running_active, forallb_running_mainLoop by assumption.
  split; [reflexivity |]. split; [reflexivity |].
  cbn. split.
  - rewrite !elem_of_cons. auto.
  - intros Hin.
    do 4 (apply elem_of_cons in Hin as [Hin | Hin]; [discriminate Hin |]).
    exact (forallb_running_no_cancel evs Hr Hin).
Qed.

(** *** Which hook a command goes to *)

Lemma logger_calls_well_routed (evs : list event) :
  forallb is_logger_call evs = true -> forallb well_routed evs = true.
Proof.
  induction evs as [|e evs IH]; [reflexivity |].
  cbn. intros Hall. apply andb_true_iff in Hall as [He Hall].
  rewrite (IH Hall). destruct e; try discriminate; reflexivity.
Qed.

Lemma loop_body_well_routed (command : ActionMessage) (s : LoopState) :
  forallb well_routed (trace s) = true ->
  forallb well_routed (trace (fst (loop_body command s))) = true.
Proof.
  intros Hinit.
  assert (Hdump : forall b l, forallb well_routed (logDump_events b l) = true)
    by (intros; apply logger_calls_well_routed, logDump_events_logger_calls).
  unfold loop_body, call_processCommand, call_processPriorityCommand,
    call_processDisconnect, logDump, emit.
  destruct (action command) eqn:Ea; cbn;
    repeat (match goal with
            | |- context [if ?c then _ else _] => destruct c eqn:?
            | |- context [processCommand ?m ?b] => destruct (processCommand m b)
            | |- context [processPriorityCommand ?m ?b] =>
                destruct (processPriorityCommand m b)
            end; cbn);
    rewrite ?forallb_app, ?Hdump, ?trace_record_pop, ?Hinit; cbn;
    rewrite ?Ea; cbn;
    repeat match goal with
           | E : isPriorityCommand _ = _ |- _ => rewrite E; clear E
           end; reflexivity.
Qed.

(** X4.  Whatever the hooks do and whatever is popped, the dispatcher
    hands [processPriorityCommand] nothing but domain commands that
    [isPriorityCommand] accepts, and [processCommand] nothing but ticks,
    [CMD_STOP] and domain commands that [isPriorityCommand] rejects:
    [CMD_IGNORE] and [CMD_TERMINATE_IMMEDIATELY] never reach a hook. *)
Theorem commands_reach_the_hook_of_their_lane (popped : list ActionMessage) (b : t) :
  forallb well_routed (trace (final_state (queueProcessingLoop popped b))) = true.
Proof.
  unfold queueProcessingLoop.
  assert (Hinit : forallb well_routed (trace (loop_entry b)) = true)
    by reflexivity.
  revert Hinit. generalize (loop_entry b).
  induction popped as [|command rest IH]; intros s Hinit; [exact Hinit |].
  cbn [loop_from].
  pose proof (loop_body_well_routed command s Hinit) as Hstep.
  destruct (loop_body command s) as [s1 [|]]; cbn in *; auto.
Qed.

(** *** The order of the hook calls *)

Lemma logger_calls_hook_command (evs : list event) :
  forallb is_logger_call evs = true -> omap hook_command evs = [].
Proof.
  induction evs as [|e evs IH]; [reflexivity |].
  cbn. intros Hall. apply andb_true_iff in Hall as [He Hall].
  rewrite (IH Hall). destruct e; try discriminate; reflexivity.
Qed.

Lemma loop_body_hook_command (command : ActionMessage) (s : LoopState) :
  exists called : bool,
    omap hook_command (trace (fst (loop_body command s)))
      = omap hook_command (trace s) ++ (if called then [command] else []).
Proof.
  assert (Hdump : forall b l, omap hook_command (logDump_events b l) = [])
    by (intros; apply logger_calls_hook_command, logDump_events_logger_calls).
  unfold loop_body, call_processCommand, call_processPriorityCommand,
    call_processDisconnect, logDump, emit.
  destruct (action command); cbn;
    repeat (match goal with
            | |- context [if ?c then _ else _] => destruct c
            | |- context [processCommand ?m ?b] => destruct (processCommand m b)
            | |- context [processPriorityCommand ?m ?b] =>
                destruct (processPriorityCommand m b)
            end; cbn);
    rewrite ?omap_app, ?Hdump, ?trace_record_pop; cbn;
    rewrite ?app_nil_r, <- ?app_assoc; cbn;
    first [ exists true; reflexivity
          | exists false; cbn; rewrite ?app_nil_r; reflexivity ].
Qed.

(** X5.  The commands the hooks receive, in the order of the calls, form
    a subsequence of the popped commands: every command is processed at
    most once and never before a command popped earlier. *)
Theorem hooks_are_called_in_pop_order (popped : list ActionMessage) (b : t) :
  sublist (omap hook_command (trace (final_state (queueProcessingLoop popped b))))
          popped.
Proof.
  unfold queueProcessingLoop.
  assert (Hgen : forall s,
            exists l, omap hook_command (trace (final_state (loop_from popped s)))
                        = omap hook_command (trace s) ++ l /\ sublist l popped).
  { induction popped as [|command rest IH]; intros s.
    - exists []. rewrite app_nil_r. split; [reflexivity | constructor].
    - cbn [loop_from].
      destruct (loop_body_hook_command command s) as [called Hstep].
      destruct (loop_body command s) as [s1 returned]. cbn in Hstep.
      assert (Hone : sublist (if called then [command] else []) (command :: rest)).
      { destruct called; [| apply sublist_nil_l].
        apply sublist_skip, sublist_nil_l. }
      destruct returned.
      + cbn. eexists. split; [exact Hstep | exact Hone].
      + destruct (IH s1) as (l & Hl & Hsub).
        exists ((if called then [command] else []) ++ l).
        rewrite Hl, Hstep, <- app_assoc. split; [reflexivity |].
        destruct called; cbn; [now apply sublist_skip | now apply sublist_cons]. }
  destruct (Hgen (loop_entry b)) as (l & Hl & Hsub).
  rewrite Hl. exact Hsub.
Qed.

(** *** Ticks on a broker that counts nothing *)

Lemma filter_hook_running_tail (command : ActionMessage) (restart : list event)
    (ms : Z) :
  restart = [] \/ restart = [EvReleaseServiceLoop; EvRunServiceLoop] ->
  List.filter is_hook_event
    ([EvProcessCommand command] ++ restart ++ [EvTimerExpiresAt ms; EvTimerAsyncWait])
    = [EvProcessCommand command].
Proof. intros [-> | ->]; reflexivity. Qed.

(** A tick popped while the counter is at [0] goes to [processCommand] and
    leaves the counter at [0]. *)
Lemma loop_body_idle_tick (command : ActionMessage) (s : LoopState) :
  action command = CMD_TICK ->
  messagesSinceLastTick s = 0 ->
  snd (loop_body command s) = false /\
  messagesSinceLastTick (fst (loop_body command s)) = 0 /\
  bbase (fst (loop_body command s)) = snd (processCommand command (bbase s)) /\
  List.filter is_hook_event (trace (fst (loop_body command s)))
    = List.filter is_hook_event (trace s) ++ [EvProcessCommand command].
Proof.
  intros Hact Hzero.
  destruct (loop_body_tick command s Hact)
    as (restart & Hrestart & Hret & Hcount & _ & Hb & Htrace).
  rewrite Hzero in Hb, Htrace. cbn in Hb, Htrace.
  repeat split; try assumption.
  rewrite Htrace, List.filter_app. f_equal.
  now apply filter_hook_running_tail.
Qed.

Lemma loop_body_dropped (command : ActionMessage) (s : LoopState) :
  action command = CMD_IGNORE \/
  ((exists code, action command = CMD_DOMAIN code) /\
   haltOperations (bbase s) = true) ->
  loop_body command s = (record_pop command s, false).
Proof.
  intros [Hact | [[code Hact] Hhalt]]; unfold loop_body; rewrite Hact;
    [reflexivity |].
  rewrite bbase_record_pop, Hhalt. reflexivity.
Qed.

Lemma filter_hook_logDump (b : t) (dumped : list ActionMessage) :
  List.filter is_hook_event (logDump_events b dumped) = [].
Proof.
  pose proof (logDump_events_logger_calls b dumped) as Hcalls.
  induction (logDump_events b dumped) as [|e evs IH]; [reflexivity |].
  cbn in *. apply andb_true_iff in Hcalls as [He Hcalls].
  rewrite (IH Hcalls). destruct e; try discriminate; reflexivity.
Qed.

Lemma loop_from_halted (popped : list ActionMessage) :
  keeps_halted ->
  forall s : LoopState,
    haltOperations (bbase s) = true ->
    messagesSinceLastTick s = 0 ->
    List.filter is_hook_event (trace (final_state (loop_from popped s)))
      = List.filter is_hook_event (trace s)
        ++ map EvProcessCommand
             (List.filter (fun command => is_tick (action command))
                          (before_stop popped)).
Proof.
  intros Hkeep.
  induction popped as [|command rest IH]; intros s Hhalt Hzero.
  - cbn. now rewrite app_nil_r.
  - cbn [loop_from before_stop].
    destruct (action command) eqn:Ea; cbn [is_stopping].
    + destruct (loop_body_idle_tick command s Ea Hzero)
        as (Hret & Hzero' & Hb & Htrace).
      destruct (loop_body command s) as [s1 returned]. cbn in *. subst returned.
      rewrite IH; [| rewrite Hb; now apply Hkeep | assumption].
      rewrite Htrace, Ea, <- app_assoc. reflexivity.
    + rewrite loop_body_dropped by (left; assumption).
      rewrite IH by (rewrite ?bbase_record_pop, ?counter_record_pop; assumption).
      cbn. rewrite Ea, trace_record_pop. reflexivity.
    + destruct (loop_body_halted_stop command s Ea Hhalt) as [_ Htrace].
      pose proof (loop_body_returns command s) as Hret. rewrite Ea in Hret.
      destruct (loop_body command s) as [s1 returned]. cbn in *. subst returned.
      cbn. rewrite Htrace, List.filter_app. reflexivity.
    + pose proof (loop_body_teardown_trace command s (or_introl Ea)) as Htrace.
      pose proof (loop_body_returns command s) as Hret. rewrite Ea in Hret.
      destruct (loop_body command s) as [s1 returned]. cbn in *. subst returned.
      cbn. rewrite Htrace. unfold between_cancel_and_store, after_store.
      rewrite Ea, !List.filter_app. cbn.
      rewrite List.filter_app, filter_hook_logDump. reflexivity.
    + rewrite loop_body_dropped by (right; eauto).
      rewrite IH by (rewrite ?bbase_record_pop, ?counter_record_pop; assumption).
      cbn. rewrite Ea, trace_record_pop. reflexivity.
Qed.

(** X6.  On a broker whose [haltOperations] is set, and stays set through
    [processCommand], the hooks see the ticks and nothing else: every tick
    popped before the stopping command is handed to [processCommand], in
    order, while no domain command is processed, [CMD_STOP] is not
    processed and [processDisconnect] is not called. *)
Theorem halted_broker_processes_only_ticks (popped : list ActionMessage) (b : t) :
  keeps_halted ->
  haltOperations b = true ->
  List.filter is_hook_event (trace (final_state (queueProcessingLoop popped b)))
    = map EvProcessCommand
        (List.filter (fun command => is_tick (action command)) (before_stop popped)).
Proof.
  intros Hkeep Hhalt. unfold queueProcessingLoop.
  rewrite (loop_from_halted popped Hkeep (loop_entry b)).
  - reflexivity.
  - destruct b; exact Hhalt.
  - reflexivity.
Qed.

Lemma loop_from_idle (popped : list ActionMessage) :
  forall s : LoopState,
    forallb (fun command => match action command with
                            | CMD_TICK | CMD_IGNORE => true
                            | _ => false
                            end) popped = true ->
    messagesSinceLastTick s = 0 ->
    loop_from popped s = Blocked (final_state (loop_from popped s)) /\
    List.filter is_hook_event (trace (final_state (loop_from popped s)))
      = List.filter is_hook_event (trace s)
        ++ map EvProcessCommand
             (List.filter (fun command => is_tick (action command)) popped).
Proof.
  induction popped as [|command rest IH]; intros s Hall Hzero.
  - cbn. now rewrite app_nil_r.
  - cbn [forallb] in Hall. apply andb_true_iff in Hall as [Hc Hall].
    cbn [loop_from List.filter].
    destruct (action command) eqn:Ea; try discriminate Hc.
    + destruct (loop_body_idle_tick command s Ea Hzero)
        as (Hret & Hzero' & _ & Htrace).
      destruct (loop_body command s) as [s1 returned]. cbn in *. subst returned.
      destruct (IH s1 Hall Hzero') as [Hblocked Hhooks].
      split; [exact Hblocked |].
      rewrite Hhooks, Htrace, <- app_assoc. reflexivity.
    + rewrite loop_body_dropped by (left; assumption).
      destruct (IH (record_pop command s) Hall) as [Hblocked Hhooks];
        [now rewrite counter_record_pop |].
      split; [exact Hblocked |].
      rewrite Hhooks, trace_record_pop. reflexivity.
Qed.

(** X7.  When nothing but ticks and [CMD_IGNORE] is popped, every tick
    goes to [processCommand], whatever the hooks do to the broker, and
    the loop stays blocked in [pop]: [CMD_IGNORE] does not keep the
    liveness action from running. *)
Theorem idle_broker_forwards_every_tick (popped : list ActionMessage) (b : t) :
  forallb (fun command => match action command with
                          | CMD_TICK | CMD_IGNORE => true
                          | _ => false
                          end) popped = true ->
  has_returned (queueProcessingLoop popped b) = false /\
  List.filter is_hook_event (trace (final_state (queueProcessingLoop popped b)))
    = map EvProcessCommand
        (List.filter (fun command => is_tick (action command)) popped).
Proof.
  intros Hall. unfold queueProcessingLoop.
  destruct (loop_from_idle popped (loop_entry b) Hall eq_refl) as [Hblocked Hhooks].
  split; [rewrite Hblocked; reflexivity |].
  rewrite Hhooks. reflexivity.
Qed.

(** *** The tick of a cancelled wait *)

Lemma completion_tick_flag (error : error_code) :
  action (completion_tick error) = CMD_TICK /\
  CHECK_ACTION_FLAG (completion_tick error) error_flag
    = (error =? operation_aborted).
Proof.
  unfold completion_tick. destruct (error =? operation_aborted).
  - split; [reflexivity |]. apply CHECK_SET_ACTION_FLAG, error_flag_range.
  - split; reflexivity.
Qed.

(** A tick that is absorbed restarts the service loop exactly when it
    carries the error flag. *)
Lemma loop_body_absorbed_tick (command : ActionMessage) (s : LoopState) :
  action command = CMD_TICK ->
  messagesSinceLastTick s <> 0 ->
  bbase (fst (loop_body command s)) = bbase s /\
  serviceLoop (fst (loop_body command s))
    = CHECK_ACTION_FLAG command error_flag || serviceLoop s /\
  trace (fst (loop_body command s))
    = trace s
      ++ (if CHECK_ACTION_FLAG command error_flag
          then [EvReleaseServiceLoop; EvRunServiceLoop] else [])
      ++ [EvTimerExpiresAt (tickTimer (bbase s)); EvTimerAsyncWait].
Proof.
  intros Hact Hcount.
  destruct (record_pop_locals command s) as (_ & Hserv & _).
  unfold loop_body. rewrite Hact, counter_record_pop.
  destruct (Z.eqb_spec (messagesSinceLastTick s) 0) as [Hz | _]; [contradiction |].
  destruct (CHECK_ACTION_FLAG command error_flag); cbn;
    rewrite ?bbase_record_pop, ?trace_record_pop, ?Hserv, <- ?app_assoc;
    repeat split; reflexivity.
Qed.

(** X8.  A firing of the timer, with the liveness flag up, enqueues
    [completion_tick error].  When the dispatcher pops that tick after it
    has counted a command, it absorbs it, and it releases and re-runs the
    service loop exactly when the completion was [operation_aborted]; in
    both cases it arms the timer again. *)
Theorem cancelled_wait_restarts_service_loop (error : error_code) (b : t)
    (cout : list string) (s : LoopState) :
  messagesSinceLastTick s <> 0 ->
  timerTickHandler None true error b cout
    = Normal (set_queue (if isPriorityCommand (completion_tick error)
                         then pushPriority (completion_tick error) (_queue b)
                         else push (completion_tick error) (_queue b)) b, cout) /\
  serviceLoop (fst (loop_body (completion_tick error) s))
    = (error =? operation_aborted) || serviceLoop s /\
  trace (fst (loop_body (completion_tick error) s))
    = trace s
      ++ (if error =? operation_aborted
          then [EvReleaseServiceLoop; EvRunServiceLoop] else [])
      ++ [EvTimerExpiresAt (tickTimer (bbase s)); EvTimerAsyncWait].
Proof.
  intros Hcount.
  destruct (completion_tick_flag error) as [Hact Hflag].
  destruct (loop_body_absorbed_tick (completion_tick error) s Hact Hcount)
    as (_ & Hserv & Htrace).
  rewrite Hflag in Hserv, Htrace.
  split; [| split; assumption].
  apply TickHandlerFacts.timerTickHandler_enqueues.
Qed.

(** *** A run with the dump log off *)

Lemma dumplog_broker_at_dump (command : ActionMessage) (s : LoopState) :
  keeps_logging ->
  dumplog (broker_at_dump command s) = dumplog (bbase s).
Proof.
  intros Hkeep. unfold broker_at_dump.
  destruct (same_logging_set_mainLoopIsRunning false
              match action command with
              | CMD_STOP => snd (processCommand command (bbase s))
              | _ => bbase s
              end) as (Hd & _).
  rewrite Hd.
  destruct (action command); try reflexivity.
  destruct (Hkeep command (bbase s)) as [(Hd' & _) _]. exact Hd'.
Qed.

Lemma loop_from_dump_off (popped : list ActionMessage) :
  keeps_logging ->
  forall s : LoopState,
    dumplog (bbase s) = false ->
    dumpMessages s = [] ->
    existsb is_logger_call (trace s) = false ->
    existsb is_logger_call (trace (final_state (loop_from popped s))) = false /\
    dumpMessages (final_state (loop_from popped s)) = [].
Proof.
  intros Hkeep.
  induction popped as [|command rest IH]; intros s Hoff Hnone Hquiet;
    [split; assumption |].
  cbn [loop_from].
  pose proof (loop_body_dumpMessages command s) as Hrec.
  destruct (record_pop_fields command s) as (_ & _ & _ & Hpush).
  rewrite Hpush, Hoff, Hnone in Hrec.
  pose proof (loop_body_returns command s) as Hret.
  pose proof (loop_body_running command s) as Hrun.
  pose proof (loop_body_same_logging command s Hkeep) as Hsame.
  assert (Hstop : snd (loop_body command s) = true ->
            existsb is_logger_call (trace (fst (loop_body command s))) = false).
  { intros Htrue. rewrite Hret in Htrue.
    destruct (haltOperations (bbase s)) eqn:Ehalt;
      destruct (action command) eqn:Ea; try discriminate Htrue.
    - destruct (loop_body_halted_stop command s Ea Ehalt) as [_ ->].
      rewrite existsb_app, Hquiet. reflexivity.
    - rewrite (loop_body_teardown_trace command s (or_introl Ea)).
      unfold between_cancel_and_store, after_store, logDump_events.
      rewrite dumplog_broker_at_dump, Hoff, Ea by assumption.
      rewrite existsb_app, Hquiet. reflexivity.
    - rewrite (loop_body_teardown_trace command s (or_intror (conj Ea Ehalt))).
      unfold between_cancel_and_store, after_store, logDump_events.
      rewrite dumplog_broker_at_dump, Hoff, Ea by assumption.
      rewrite existsb_app, Hquiet. reflexivity.
    - rewrite (loop_body_teardown_trace command s (or_introl Ea)).
      unfold between_cancel_and_store, after_store, logDump_events.
      rewrite dumplog_broker_at_dump, Hoff, Ea by assumption.
      rewrite existsb_app, Hquiet. reflexivity. }
  destruct (loop_body command s) as [s1 [|]]; cbn in *.
  - split; [now apply Hstop | exact Hrec].
  - destruct (Hrun eq_refl) as (evs & Ht & Hr & _).
    destruct (Hsame eq_refl) as (Hd & _).
    apply IH; [congruence | exact Hrec |].
    rewrite Ht, existsb_app, Hquiet, forallb_running_no_logger by assumption.
    reflexivity.
Qed.

(** X9.  With the dump log off, and hooks that leave the logging set-up
    alone, the dispatcher records no command and never calls the logger
    function or the file logger: the dump is the only logging the loop
    does. *)
Theorem no_logging_without_dumplog (popped : list ActionMessage) (b : t) :
  keeps_logging ->
  dumplog b = false ->
  existsb is_logger_call (trace (final_state (queueProcessingLoop popped b))) = false /\
  dumpMessages (final_state (queueProcessingLoop popped b)) = [].
Proof.
  intros Hkeep Hoff. unfold queueProcessingLoop.
  apply (loop_from_dump_off popped Hkeep (loop_entry b)).
  - destruct b; exact Hoff.
  - reflexivity.
  - reflexivity.
Qed.
End Run.

Lemma running_loop_holds_service_and_never_cancels_witness :
  serviceLoop Fixture.blocked_after_data = true /\
  active Fixture.blocked_after_data = true /\
  active_after (trace Fixture.blocked_after_data) = true /\
  last_mainLoopIsRunning (trace Fixture.blocked_after_data) = Some true /\
  EvTimerAsyncWait ∈ trace Fixture.blocked_after_data /\
  EvTimerCancel ∉ trace Fixture.blocked_after_data.
Proof.
  apply (running_loop_holds_service_and_never_cancels (D := Fixture.defs)
           (H := Fixture.quiet) [Fixture.data] (Fixture.broker false true)).
  reflexivity.
Defined.

Lemma halted_broker_processes_only_ticks_witness :
  List.filter is_hook_event
    (trace (final_state
       (queueProcessingLoop (D := Fixture.defs) (H := Fixture.quiet)
          [Fixture.tick; Fixture.data; Fixture.tick; Fixture.stop; Fixture.tick]
          (Fixture.broker true false))))
    = [EvProcessCommand Fixture.tick; EvProcessCommand Fixture.tick].
Proof.
  apply (halted_broker_processes_only_ticks (D := Fixture.defs)
           (H := Fixture.quiet)
           [Fixture.tick; Fixture.data; Fixture.tick; Fixture.stop; Fixture.tick]
           (Fixture.broker true false)).
  - intros m b Hb. exact Hb.
  - reflexivity.
Defined.

Lemma idle_broker_forwards_every_tick_witness :
  has_returned
    (queueProcessingLoop (D := Fixture.defs) (H := Fixture.quiet)
       [Fixture.tick; Fixture.ignore; Fixture.tick]
       (Fixture.broker false false)) = false /\
  List.filter is_hook_event
    (trace (final_state
       (queueProcessingLoop (D := Fixture.defs) (H := Fixture.quiet)
          [Fixture.tick; Fixture.ignore; Fixture.tick]
          (Fixture.broker false false))))
    = [EvProcessCommand Fixture.tick; EvProcessCommand Fixture.tick].
Proof.
  apply (idle_broker_forwards_every_tick (D := Fixture.defs) (H := Fixture.quiet)
           [Fixture.tick; Fixture.ignore; Fixture.tick]
           (Fixture.broker false false)).
  reflexivity.
Defined.

Lemma cancelled_wait_restarts_service_loop_witness :
  messagesSinceLastTick Fixture.blocked_after_data <> 0 /\
  trace (fst (loop_body (D := Fixture.defs) (H := Fixture.quiet)
                (completion_tick (D := Fixture.defs) operation_aborted)
                Fixture.blocked_after_data))
    = trace Fixture.blocked_after_data
      ++ [EvReleaseServiceLoop; EvRunServiceLoop]
      ++ [EvTimerExpiresAt 4000; EvTimerAsyncWait].
Proof.
  assert (Hcount : messagesSinceLastTick Fixture.blocked_after_data <> 0)
    by (intros Heq; vm_compute in Heq; discriminate Heq).
  split; [exact Hcount |].
  apply (cancelled_wait_restarts_service_loop (D := Fixture.defs)
           (H := Fixture.quiet) operation_aborted (Fixture.broker false true) []
           Fixture.blocked_after_data Hcount).
Defined.

Lemma no_logging_without_dumplog_witness :
  existsb is_logger_call
    (trace (final_state
       (queueProcessingLoop (D := Fixture.defs) (H := Fixture.quiet)
          [Fixture.data; Fixture.stop] (Fixture.broker false false)))) = false /\
  dumpMessages
    (final_state
       (queueProcessingLoop (D := Fixture.defs) (H := Fixture.quiet)
          [Fixture.data; Fixture.stop] (Fixture.broker false false))) = [].
Proof.
  apply (no_logging_without_dumplog (D := Fixture.defs) (H := Fixture.quiet)).
  - intros m b. split; unfold same_logging; cbn; tauto.
  - reflexivity.
Defined.

End RunFacts.

(** ** More on argument intake *)

Module IntakeMore.
Import BrokerBase.

Lemma take_int_eq (vm : gmap string po_value) (key : string)
    (assign : Z -> t -> t) (b : t) :
  take_int vm key assign b
    = if int_typed (vm !! key) then Normal (assign_int (vm !! key) assign b)
      else Throws (std_exception "boost::bad_any_cast").
Proof. unfold take_int. destruct (vm !! key) as [[z|s|]|]; reflexivity. Qed.

Lemma take_string_eq (vm : gmap string po_value) (key : string)
    (assign : string -> t -> t) (b : t) :
  take_string vm key assign b
    = if string_typed (vm !! key) then Normal (assign_string (vm !! key) assign b)
      else Throws (std_exception "boost::bad_any_cast").
Proof. unfold take_string. destruct (vm !! key) as [[z|s|]|]; reflexivity. Qed.

Lemma take_flag_eq (vm : gmap string po_value) (key : string)
    (assign : t -> t) (b : t) :
  take_flag vm key assign b = Normal (assign_flag (vm !! key) assign b).
Proof. unfold take_flag. destruct (vm !! key); reflexivity. Qed.

(** Intake reads the options one after the other and stops at the first
    value it cannot convert. *)
Lemma initializeFromCmdArgs_eq (vm : gmap string po_value) (fresh_id : string)
    (b : t) :
  initializeFromCmdArgs vm fresh_id b
    = if well_typed vm then Normal (start_up fresh_id (options_read vm b))
      else Throws (std_exception "boost::bad_any_cast").
Proof.
  unfold initializeFromCmdArgs, well_typed, options_read.
  repeat (first [rewrite take_int_eq | rewrite take_string_eq | rewrite take_flag_eq];
          match goal with
          | |- context [int_typed ?v] => destruct (int_typed v); [| reflexivity]
          | |- context [string_typed ?v] => destruct (string_typed v); [| reflexivity]
          | _ => idtac
          end; cbn [bind_outcome andb]).
  reflexivity.
Qed.

(** The fields of the broker after [start_up]. *)
Lemma start_up_fields (fresh_id : string) (b : t) :
  identifier (start_up fresh_id b)
    = (if negb (noAutomaticID b) && string_empty (identifier b)
       then fresh_id else identifier b) /\
  _min_federates (start_up fresh_id b) = _min_federates b /\
  maxLogLevel (start_up fresh_id b) = maxLogLevel b /\
  logFile (start_up fresh_id b) = logFile b /\
  loggerFunction (start_up fresh_id b) = loggerFunction b /\
  global_broker_id (start_up fresh_id b) = global_broker_id b /\
  _queue_processing_thread (start_up fresh_id b) = true /\
  loggingObj (start_up fresh_id b)
    = Some {| running := true;
              consoleLevel := maxLogLevel b;
              fileLevel := maxLogLevel b;
              outFile := if string_empty (logFile b) then None
                         else Some (logFile b) |}.
Proof.
  destruct b as [i g mf mb mi ml cl fl lf to tt dl na ho mr lfn lo tc q th].
  destruct na, i as [|c i], lf as [|c' lf]; cbn; repeat split; reflexivity.
Qed.

Lemma assign_int_preserves {X : Type} (f : t -> X) (v : option po_value)
    (assign : Z -> t -> t) (b : t) :
  (forall z b0, f (assign z b0) = f b0) ->
  f (assign_int v assign b) = f b.
Proof. intros Hf. destruct v as [[z|s|]|]; cbn; auto. Qed.

Lemma assign_string_preserves {X : Type} (f : t -> X) (v : option po_value)
    (assign : string -> t -> t) (b : t) :
  (forall s b0, f (assign s b0) = f b0) ->
  f (assign_string v assign b) = f b.
Proof. intros Hf. destruct v as [[z|s|]|]; cbn; auto. Qed.

Lemma assign_flag_preserves {X : Type} (f : t -> X) (v : option po_value)
    (assign : t -> t) (b : t) :
  (forall b0, f (assign b0) = f b0) ->
  f (assign_flag v assign b) = f b.
Proof. intros Hf. destruct v; cbn; auto. Qed.

(** Peels the assignments that do not touch the field under [f]. *)
Ltac peel_options :=
  repeat first
    [ rewrite (assign_int_preserves _ _ _ _) by (intros ? []; reflexivity)
    | rewrite (assign_string_preserves _ _ _ _) by (intros ? []; reflexivity)
    | rewrite (assign_flag_preserves _ _ _ _) by (intros []; reflexivity) ].

Lemma options_read_min_federates (vm : gmap string po_value) (b : t) :
  _min_federates (options_read vm b)
    = match vm !! "federates" with
      | Some (po_int f) => f
      | _ => match vm !! "minfed" with
             | Some (po_int g) => g
             | _ => match vm !! "min" with
                    | Some (po_int h) => h
                    | _ => _min_federates b
                    end
             end
      end.
Proof.
  unfold options_read. peel_options.
  destruct (vm !! "federates") as [[f|?|]|], (vm !! "minfed") as [[g|?|]|],
    (vm !! "min") as [[h|?|]|]; destruct b; reflexivity.
Qed.

Lemma options_read_identifier (vm : gmap string po_value) (b : t) :
  identifier (options_read vm b)
    = match vm !! "identifier" with
      | Some (po_string s) => s
      | _ => match vm !! "name" with
             | Some (po_string s) => s
             | _ => identifier b
             end
      end.
Proof.
  unfold options_read. peel_options.
  destruct (vm !! "identifier") as [[?|i|]|]; cbn;
    try (destruct (assign_flag _ _ _); reflexivity);
    peel_options;
    destruct (vm !! "name") as [[?|n|]|]; cbn;
    try (destruct (assign_int _ _ _); reflexivity);
    peel_options; reflexivity.
Qed.

Lemma options_read_noAutomaticID (vm : gmap string po_value) (b : t) :
  noAutomaticID (options_read vm b) = noAutomaticID b.
Proof. unfold options_read. peel_options. reflexivity. Qed.

Lemma options_read_loggerFunction (vm : gmap string po_value) (b : t) :
  loggerFunction (options_read vm b) = loggerFunction b.
Proof. unfold options_read. peel_options. reflexivity. Qed.

Lemma options_read_maxLogLevel (vm : gmap string po_value) (b : t) :
  maxLogLevel (options_read vm b)
    = match vm !! "loglevel" with
      | Some (po_int n) => n
      | _ => maxLogLevel b
      end.
Proof.
  unfold options_read. peel_options.
  destruct (vm !! "loglevel") as [[n|?|]|]; cbn;
    try (destruct (assign_string _ _ _); reflexivity);
    peel_options; reflexivity.
Qed.

Lemma gen_id_not_empty (pid : Z) (uuid_str : string) :
  string_empty (gen_id pid uuid_str) = false.
Proof. unfold gen_id. destruct (to_string pid); reflexivity. Qed.

(** X10.  Of the three options that give the number of federates the
    last one read wins: [federates] over [minfed] over [min], whatever the
    order on the command line; without any of them the number is left as
    it was. *)
Theorem federates_overrides_minfed_overrides_min (vm : gmap string po_value)
    (fresh_id : string) (b b' : t) :
  initializeFromCmdArgs vm fresh_id b = Normal b' ->
  _min_federates b'
    = match vm !! "federates" with
      | Some (po_int f) => f
      | _ => match vm !! "minfed" with
             | Some (po_int g) => g
             | _ => match vm !! "min" with
                    | Some (po_int h) => h
                    | _ => _min_federates b
                    end
             end
      end.
Proof.
  rewrite initializeFromCmdArgs_eq. destruct (well_typed vm); [| discriminate].
  intros Heq. injection Heq as <-.
  destruct (start_up_fields fresh_id (options_read vm b)) as (_ & -> & _).
  apply options_read_min_federates.
Qed.

(** X11.  The identifier after intake is the value of [identifier], else
    the value of [name], else the identifier the broker had; when that is
    empty and automatic identifiers are not switched off it is replaced by
    the generated one.  With [gen_id] as the generator the identifier of a
    broker with automatic identifiers is never empty after intake. *)
Theorem identifier_after_intake (vm : gmap string po_value)
    (fresh_id : string) (b b' : t) :
  initializeFromCmdArgs vm fresh_id b = Normal b' ->
  let given := match vm !! "identifier" with
               | Some (po_string s) => s
               | _ => match vm !! "name" with
                      | Some (po_string s) => s
                      | _ => identifier b
                      end
               end in
  identifier b'
    = (if negb (noAutomaticID b) && string_empty given then fresh_id else given) /\
  (forall pid uuid_str,
     fresh_id = gen_id pid uuid_str -> noAutomaticID b = false ->
     string_empty (identifier b') = false).
Proof.
  rewrite initializeFromCmdArgs_eq. destruct (well_typed vm); [| discriminate].
  intros Heq. injection Heq as <-. intros given.
  destruct (start_up_fields fresh_id (options_read vm b)) as (Hfinal & _).
  rewrite options_read_identifier, options_read_noAutomaticID in Hfinal.
  fold given in Hfinal.
  split; [exact Hfinal |].
  intros pid uuid_str -> Hon. rewrite Hfinal, Hon. cbn.
  destruct (string_empty given) eqn:Egiven; [apply gen_id_not_empty | exact Egiven].
Qed.

(** X13.  After a successful intake the broker has a new file logger that
    is running with [maxLogLevel] as console and file level ([loglevel]
    when given) and writes to [logFile] when that is not empty; the logger
    function is the one it had, and the dispatcher thread is joinable.
    Every message of its own with a level up to [maxLogLevel] then
    reaches exactly one sink. *)
Theorem intake_starts_logger (vm : gmap string po_value)
    (fresh_id : string) (b b' : t) :
  initializeFromCmdArgs vm fresh_id b = Normal b' ->
  loggingObj b'
    = Some {| running := true;
              consoleLevel := maxLogLevel b';
              fileLevel := maxLogLevel b';
              outFile := if string_empty (logFile b') then None
                         else Some (logFile b') |} /\
  maxLogLevel b' = match vm !! "loglevel" with
                   | Some (po_int n) => n
                   | _ => maxLogLevel b
                   end /\
  loggerFunction b' = loggerFunction b /\
  _queue_processing_thread b' = true /\
  (forall federateID logLevel name message,
     owns_log_stream b' federateID -> logLevel <= maxLogLevel b' ->
     length (snd (sendToLogger b' federateID logLevel name message)) = 1%nat).
Proof.
  rewrite initializeFromCmdArgs_eq. destruct (well_typed vm); [| discriminate].
  intros Heq. injection Heq as <-.
  destruct (start_up_fields fresh_id (options_read vm b))
    as (_ & _ & Hmax & Hfile & Hfn & _ & Hthread & Hobj).
  split; [rewrite Hobj, Hmax, Hfile; reflexivity |].
  split; [rewrite Hmax; apply options_read_maxLogLevel |].
  split; [rewrite Hfn; apply options_read_loggerFunction |].
  split; [exact Hthread |].
  intros federateID logLevel name message Hown Hlvl.
  rewrite LoggingFacts.sendToLogger_owned by assumption.
  destruct (Z.gtb_spec logLevel (maxLogLevel (start_up fresh_id (options_read vm b))));
    [lia |].
  rewrite Hobj. destruct (loggerFunction _); reflexivity.
Qed.

Lemma federates_overrides_minfed_overrides_min_witness :
  _min_federates
    (start_up "42-uuid" (options_read Fixture.cmdline (Fixture.broker false false)))
    = 3.
Proof.
  assert (Hrun : initializeFromCmdArgs Fixture.cmdline "42-uuid"
                   (Fixture.broker false false)
                 = Normal (start_up "42-uuid"
                             (options_read Fixture.cmdline
                                (Fixture.broker false false))))
    by (vm_compute; reflexivity).
  rewrite (federates_overrides_minfed_overrides_min _ _ _ _ Hrun).
  vm_compute. reflexivity.
Defined.

Lemma identifier_after_intake_witness :
  identifier
    (start_up (gen_id 42 "uuid") (options_read ∅ (Fixture.broker false false)))
    = "broker" /\
  string_empty
    (identifier
       (start_up (gen_id 42 "uuid")
          (options_read ∅ (Fixture.broker false false)))) = false.
Proof.
  assert (Hrun : initializeFromCmdArgs ∅ (gen_id 42 "uuid")
                   (Fixture.broker false false)
                 = Normal (start_up (gen_id 42 "uuid")
                             (options_read ∅ (Fixture.broker false false))))
    by (vm_compute; reflexivity).
  destruct (identifier_after_intake _ _ _ _ Hrun) as [Hid Hfresh].
  split.
  - rewrite Hid. vm_compute. reflexivity.
  - apply (Hfresh 42 "uuid"); reflexivity.
Defined.

Lemma intake_starts_logger_witness :
  maxLogLevel
    (start_up "42-uuid" (options_read Fixture.cmdline (Fixture.broker false false)))
    = 2 /\
  length
    (snd (sendToLogger
            (start_up "42-uuid"
               (options_read Fixture.cmdline (Fixture.broker false false)))
            0 2 "alpha" "hello")) = 1%nat.
Proof.
  assert (Hrun : initializeFromCmdArgs Fixture.cmdline "42-uuid"
                   (Fixture.broker false false)
                 = Normal (start_up "42-uuid"
                             (options_read Fixture.cmdline
                                (Fixture.broker false false))))
    by (vm_compute; reflexivity).
  destruct (intake_starts_logger _ _ _ _ Hrun) as (_ & Hmax & _ & _ & Hsend).
  split.
  - rewrite Hmax. vm_compute. reflexivity.
  - apply Hsend.
    + left. reflexivity.
    + vm_compute. discriminate.
Defined.

End IntakeMore.

(** ** More on logging *)

Module LoggingMore.
Import BrokerBase.

(** X14.  [setLoggerFunction] fails, on a null logger, exactly when it is
    given an empty function on a broker that has no file logger; to
    install a function never fails. *)
Theorem setLoggerFunction_fails_iff (logFunction : option LoggerFunction) (b : t) :
  setLoggerFunction logFunction b = None
  <-> logFunction = None /\ loggingObj b = None.
Proof.
  destruct b as [i g mf mb mi ml cl fl lf to tt dl na ho mr lfn lo tc q th].
  unfold setLoggerFunction; cbn.
  destruct logFunction as [f|], lo as [l|]; cbn;
    try destruct (isRunning l); cbn; split; intros Hx;
    try discriminate; try (destruct Hx; discriminate); auto.
Qed.

(** X15.  After a call of [setLoggerFunction] that does not fail the
    function of the broker is the one given, and the file logger, when
    there is one, runs exactly when no function is installed; its levels
    and file are as before, and so are the levels of the broker. *)
Theorem setLoggerFunction_logger_runs_iff_no_function
    (logFunction : option LoggerFunction) (b b' : t) :
  setLoggerFunction logFunction b = Some b' ->
  loggerFunction b' = logFunction /\
  maxLogLevel b' = maxLogLevel b /\
  (loggingObj b = None -> loggingObj b' = None) /\
  (forall l, loggingObj b = Some l ->
     loggingObj b'
       = Some {| running := match logFunction with None => true | Some _ => false end;
                 consoleLevel := consoleLevel l;
                 fileLevel := fileLevel l;
                 outFile := outFile l |}).
Proof.
  destruct b as [i g mf mb mi ml cl fl lf to tt dl na ho mr lfn lo tc q th].
  unfold setLoggerFunction; cbn.
  destruct logFunction as [f|], lo as [[r c fv o]|]; cbn;
    try destruct r; cbn; intros Heq; try discriminate;
    injection Heq as <-; cbn; repeat split; try discriminate;
    intros l Hl; injection Hl as <-; reflexivity.
Qed.

(** X16.  On a broker with a running file logger and no logger function,
    to install a function and then to remove it gives back the broker as
    it was. *)
Theorem install_then_remove_logger_function (f : LoggerFunction) (b : t) (l : Logger) :
  loggerFunction b = None ->
  loggingObj b = Some l ->
  isRunning l = true ->
  exists b1, setLoggerFunction (Some f) b = Some b1 /\
             setLoggerFunction None b1 = Some b.
Proof.
  destruct b as [i g mf mb mi ml cl fl lf to tt dl na ho mr lfn lo tc q th].
  cbn. intros -> -> Hrun. destruct l as [r c fv o]. cbn in Hrun. subst r.
  eexists. split; reflexivity.
Qed.

(** X17.  [setLogLevels] sets the console and file levels of the broker
    and of its file logger, and [maxLogLevel] to the larger of the two.
    From then on a message of the broker's own, with a sink installed, is
    dropped exactly when its level is above both levels. *)
Theorem setLogLevels_drops_above_both (consoleLevel fileLevel : Z) (b : t)
    (federateID logLevel : Z) (name message : string) :
  consoleLogLevel (setLogLevels consoleLevel fileLevel b) = consoleLevel /\
  fileLogLevel (setLogLevels consoleLevel fileLevel b) = fileLevel /\
  maxLogLevel (setLogLevels consoleLevel fileLevel b)
    = Z.max consoleLevel fileLevel /\
  (forall l, loggingObj b = Some l ->
     loggingObj (setLogLevels consoleLevel fileLevel b)
       = Some {| running := running l;
                 consoleLevel := consoleLevel;
                 fileLevel := fileLevel;
                 outFile := outFile l |}) /\
  (owns_log_stream b federateID -> logger_installed b ->
     (snd (sendToLogger (setLogLevels consoleLevel fileLevel b)
             federateID logLevel name message) = []
      <-> consoleLevel < logLevel /\ fileLevel < logLevel)).
Proof.
  destruct b as [i g mf mb mi ml cl fl lf to tt dl na ho mr lfn lo tc q th].
  unfold setLogLevels, owns_log_stream, logger_installed; cbn.
  split; [destruct lo; reflexivity |].
  split; [destruct lo; reflexivity |].
  split; [destruct lo; reflexivity |].
  split; [intros l ->; reflexivity |].
  intros Hown Hinst.
  assert (Htest : (federateID =? 0) || (federateID =? g) = true).
  { apply orb_true_iff. rewrite !Z.eqb_eq. exact Hown. }
  unfold sendToLogger.
  destruct lo as [l|]; cbn; rewrite Htest;
    destruct (Z.gtb_spec logLevel (Z.max consoleLevel fileLevel)) as [Hgt | Hle];
    split; intros Hx; try reflexivity; try lia;
    try (destruct lfn; discriminate Hx).
  destruct lfn as [f|]; [discriminate Hx |].
  destruct Hinst as [[f Hf] | [l Hl]]; discriminate.
Qed.

Lemma setLoggerFunction_fails_iff_witness :
  setLoggerFunction None Fixture.broker_without_logger = None.
Proof.
  apply (proj2 (setLoggerFunction_fails_iff None Fixture.broker_without_logger)).
  split; reflexivity.
Defined.

Lemma setLoggerFunction_logger_runs_iff_no_function_witness :
  exists b',
    setLoggerFunction (Some Fixture.callback) (Fixture.broker false false) = Some b' /\
    loggerFunction b' = Some Fixture.callback /\
    loggingObj b' = Some {| running := false; consoleLevel := 1; fileLevel := 1;
                            outFile := None |}.
Proof.
  eexists. split; [reflexivity |].
  destruct (setLoggerFunction_logger_runs_iff_no_function
              (Some Fixture.callback) (Fixture.broker false false) _ eq_refl)
    as (Hfn & _ & _ & Hobj).
  split; [exact Hfn |].
  apply (Hobj Fixture.file_logger). reflexivity.
Defined.

Lemma install_then_remove_logger_function_witness :
  exists b1,
    setLoggerFunction (Some Fixture.callback) (Fixture.broker false false) = Some b1 /\
    setLoggerFunction None b1 = Some (Fixture.broker false false).
Proof.
  apply (install_then_remove_logger_function Fixture.callback
           (Fixture.broker false false) Fixture.file_logger);
    reflexivity.
Defined.

Lemma setLogLevels_drops_above_both_witness :
  snd (sendToLogger (setLogLevels 3 5 (Fixture.broker false false)) 1 6
         "broker" "verbose") = [] /\
  (3 < 6 /\ 5 < 6).
Proof.
  assert (Hdrop : snd (sendToLogger (setLogLevels 3 5 (Fixture.broker false false))
                         1 6 "broker" "verbose") = [])
    by reflexivity.
  split; [exact Hdrop |].
  apply (proj2 (proj2 (proj2 (proj2
           (setLogLevels_drops_above_both 3 5 (Fixture.broker false false)
              1 6 "broker" "verbose"))))).
  - right. reflexivity.
  - right. eexists. reflexivity.
  - exact Hdrop.
Defined.

End LoggingMore.

(** ** Decimal numerals in keys and identifiers *)

Module NumeralFacts.
Import Stdlib.Strings.Ascii.
Import BrokerBase.

Lemma append_cons (c : Ascii.ascii) (s1 s2 : string) :
  String c s1 +:+ s2 = String c (s1 +:+ s2).
Proof. reflexivity. Qed.

Lemma string_forall_app (p : Ascii.ascii -> bool) (s1 s2 : string) :
  string_forall p (s1 +:+ s2) = string_forall p s1 && string_forall p s2.
Proof.
  induction s1 as [|c s1 IH]; [reflexivity |].
  rewrite append_cons. cbn [string_forall]. rewrite IH. apply andb_assoc.
Qed.

Lemma string_forall_impl (p q : Ascii.ascii -> bool) (s : string) :
  (forall c, p c = true -> q c = true) ->
  string_forall p s = true -> string_forall q s = true.
Proof.
  intros Hpq. induction s as [|c s IH]; [reflexivity |].
  cbn. intros Hall. apply andb_true_iff in Hall as [Hc Hall].
  now rewrite (Hpq c Hc), IH.
Qed.

Lemma pretty_N_char_digit (x : N) : is_digit (pretty_N_char x) = true.
Proof. unfold pretty_N_char. repeat case_match; reflexivity. Qed.

Lemma pretty_N_go_digits (x : N) :
  forall s, string_forall is_digit s = true ->
            string_forall is_digit (pretty_N_go x s) = true.
Proof.
  induction (N.lt_wf_0 x) as [x _ IH]. intros s Hs.
  destruct (decide (x = 0%N)) as [-> | Hx]; [now rewrite pretty_N_go_0 |].
  rewrite pretty_N_go_step by lia.
  apply IH.
  - apply N.div_lt; lia.
  - cbn. now rewrite pretty_N_char_digit, Hs.
Qed.

Lemma pretty_N_digits (x : N) : string_forall is_digit (pretty x) = true.
Proof.
  unfold pretty, pretty_N. destruct (decide (x = 0%N)); [reflexivity |].
  now apply pretty_N_go_digits.
Qed.

(** The numeral of a number that is not negative consists of digits. *)
Lemma to_string_digits (z : Z) :
  0 <= z -> string_forall is_digit (to_string z) = true.
Proof.
  intros Hz.
  destruct z as [|p|p]; [reflexivity | apply (pretty_N_digits (N.pos p)) | lia].
Qed.

Lemma is_digit_is_not (sep c : Ascii.ascii) :
  is_digit sep = false -> is_digit c = true -> is_not sep c = true.
Proof.
  intros Hsep Hc. unfold is_not. apply negb_true_iff, Ascii.eqb_neq.
  intros ->. congruence.
Qed.

(** No numeral contains an underscore. *)
Lemma to_string_no_underscore (z : Z) :
  string_forall (is_not "_"%char) (to_string z) = true.
Proof.
  assert (Hdigits : forall x : N, string_forall (is_not "_"%char) (pretty x) = true).
  { intros x. apply (string_forall_impl is_digit); [| apply pretty_N_digits].
    intros c. now apply is_digit_is_not. }
  destruct z as [|p|p]; [reflexivity | apply (Hdigits (N.pos p)) |].
  change (to_string (Z.neg p)) with ("-" +:+ pretty (N.pos p)).
  rewrite string_forall_app, Hdigits. reflexivity.
Qed.

(** Two strings cut at the first separator agree part by part. *)
Lemma split_at_separator (sep : Ascii.ascii) (a c b d : string) :
  string_forall (is_not sep) a = true ->
  string_forall (is_not sep) c = true ->
  a +:+ String sep b = c +:+ String sep d ->
  a = c /\ b = d.
Proof.
  revert c. induction a as [|x a IH]; intros [|y c] Ha Hc Heq.
  - injection Heq as <-. split; reflexivity.
  - rewrite append_cons in Heq. injection Heq as <- _.
    cbn in Hc. unfold is_not in Hc. rewrite Ascii.eqb_refl in Hc. discriminate.
  - rewrite append_cons in Heq. injection Heq as -> _.
    cbn in Ha. unfold is_not in Ha. rewrite Ascii.eqb_refl in Ha. discriminate.
  - rewrite !append_cons in Heq. injection Heq as -> Heq.
    cbn in Ha, Hc.
    apply andb_true_iff in Ha as [_ Ha]. apply andb_true_iff in Hc as [_ Hc].
    destruct (IH c Ha Hc Heq) as [-> ->]. split; reflexivity.
Qed.

(** The key of an index pair determines both indices. *)
Lemma index_pair_key_inj (key : string) (i1 i2 j1 j2 : Z) :
  (((key +:+ "_") +:+ to_string i1) +:+ "_") +:+ to_string i2
    = (((key +:+ "_") +:+ to_string j1) +:+ "_") +:+ to_string j2 ->
  i1 = j1 /\ i2 = j2.
Proof.
  rewrite !append_assoc. intros Heq.
  apply (inj (String.append key)) in Heq.
  apply (inj (String.append "_")) in Heq.
  destruct (split_at_separator "_"%char _ _ _ _
              (to_string_no_underscore i1) (to_string_no_underscore j1) Heq)
    as [H1 H2].
  split; now apply to_string_inj.
Qed.

Lemma index_key_inj (key : string) (i1 j1 : Z) :
  (key +:+ "_") +:+ to_string i1 = (key +:+ "_") +:+ to_string j1 -> i1 = j1.
Proof.
  rewrite !append_assoc. intros Heq.
  apply (inj (String.append key)) in Heq.
  apply (inj (String.append "_")) in Heq.
  now apply to_string_inj.
Qed.

(** The key of one index is never the key of an index pair. *)
Lemma index_key_not_pair_key (key : string) (i1 j1 j2 : Z) :
  (key +:+ "_") +:+ to_string i1
    <> (((key +:+ "_") +:+ to_string j1) +:+ "_") +:+ to_string j2.
Proof.
  rewrite !append_assoc. intros Heq.
  apply (inj (String.append key)) in Heq.
  apply (inj (String.append "_")) in Heq.
  pose proof (to_string_no_underscore i1) as Hone.
  rewrite Heq, string_forall_app in Hone.
  apply andb_true_iff in Hone as [_ Hone]. discriminate Hone.
Qed.

Section Keys.
Context {Fed A : Type}.
Variable register : string -> Fed -> outcome A.

(** A registration that tells keys apart tells the indexed keys apart. *)
Lemma indexed_keys_apart (key : string) (i1 i2 j1 j2 : Z) (fed : Fed) :
  ValueFederate.tells_keys_apart register fed ->
  (i1 <> j1 ->
     register ((key +:+ "_") +:+ to_string i1) fed
       <> register ((key +:+ "_") +:+ to_string j1) fed) /\
  (i1 <> j1 \/ i2 <> j2 ->
     register ((((key +:+ "_") +:+ to_string i1) +:+ "_") +:+ to_string i2) fed
       <> register ((((key +:+ "_") +:+ to_string j1) +:+ "_") +:+ to_string j2) fed) /\
  register ((key +:+ "_") +:+ to_string i1) fed
    <> register ((((key +:+ "_") +:+ to_string j1) +:+ "_") +:+ to_string j2) fed.
Proof.
  intros Hapart. split; [| split].
  - intros Hne Heq. apply Hne. apply Hapart in Heq. now apply index_key_inj in Heq.
  - intros Hne Heq. apply Hapart in Heq.
    apply index_pair_key_inj in Heq as [-> ->]. destruct Hne as [Hne | Hne];
      now apply Hne.
  - intros Heq. apply Hapart in Heq. now apply index_key_not_pair_key in Heq.
Qed.
End Keys.

Section Registration.
Context {Fed Publication Input ValueType : Type}.
Variable ValueConverter_type : ValueType -> string.
Variable registerGlobalPublication :
  string -> string -> string -> Fed -> outcome (Publication * Fed).
Variable registerGlobalInput :
  string -> string -> string -> Fed -> outcome (Input * Fed).
Variable registerSubscription :
  string -> string -> Fed -> outcome (Input * Fed).

(** X18.  In a federate state in which the registration the templates
    forward to tells keys apart, the indexed variants tell indices apart:
    on the same key, the variant with one index gives different results
    for different indices, the variant with two indices gives different
    results for different index pairs, and a call with one index never
    gives the result of a call with two (no numeral contains an
    underscore).  This holds for publications, inputs and subscriptions
    alike. *)
Theorem indexed_registrations_tell_indices_apart
    (X : ValueType) (key units : string) (i1 i2 j1 j2 : Z) (fed : Fed) :
  (ValueFederate.tells_keys_apart
     (fun k => registerGlobalPublication k (ValueConverter_type X) units) fed ->
   (i1 <> j1 ->
      ValueFederate.registerPublicationIndexed ValueConverter_type
          registerGlobalPublication X key i1 units fed
        <> ValueFederate.registerPublicationIndexed ValueConverter_type
             registerGlobalPublication X key j1 units fed) /\
   (i1 <> j1 \/ i2 <> j2 ->
      ValueFederate.registerPublicationIndexed2 ValueConverter_type
          registerGlobalPublication X key i1 i2 units fed
        <> ValueFederate.registerPublicationIndexed2 ValueConverter_type
             registerGlobalPublication X key j1 j2 units fed) /\
   ValueFederate.registerPublicationIndexed ValueConverter_type
       registerGlobalPublication X key i1 units fed
     <> ValueFederate.registerPublicationIndexed2 ValueConverter_type
          registerGlobalPublication X key j1 j2 units fed) /\
  (ValueFederate.tells_keys_apart
     (fun k => registerGlobalInput k (ValueConverter_type X) units) fed ->
   (i1 <> j1 ->
      ValueFederate.registerInputIndexed ValueConverter_type
          registerGlobalInput X key i1 units fed
        <> ValueFederate.registerInputIndexed ValueConverter_type
             registerGlobalInput X key j1 units fed) /\
   (i1 <> j1 \/ i2 <> j2 ->
      ValueFederate.registerInputIndexed2 ValueConverter_type
          registerGlobalInput X key i1 i2 units fed
        <> ValueFederate.registerInputIndexed2 ValueConverter_type
             registerGlobalInput X key j1 j2 units fed) /\
   ValueFederate.registerInputIndexed ValueConverter_type
       registerGlobalInput X key i1 units fed
     <> ValueFederate.registerInputIndexed2 ValueConverter_type
          registerGlobalInput X key j1 j2 units fed) /\
  (ValueFederate.tells_keys_apart (fun k => registerSubscription k units) fed ->
   (i1 <> j1 ->
      ValueFederate.registerSubscriptionIndexed registerSubscription key i1 units fed
        <> ValueFederate.registerSubscriptionIndexed registerSubscription
             key j1 units fed) /\
   (i1 <> j1 \/ i2 <> j2 ->
      ValueFederate.registerSubscriptionIndexed2 registerSubscription
          key i1 i2 units fed
        <> ValueFederate.registerSubscriptionIndexed2 registerSubscription
             key j1 j2 units fed) /\
   ValueFederate.registerSubscriptionIndexed registerSubscription key i1 units fed
     <> ValueFederate.registerSubscriptionIndexed2 registerSubscription
          key j1 j2 units fed).
Proof.
  unfold ValueFederate.registerPublicationIndexed,
    ValueFederate.registerPublicationIndexed2,
    ValueFederate.registerInputIndexed, ValueFederate.registerInputIndexed2,
    ValueFederate.registerSubscriptionIndexed,
    ValueFederate.registerSubscriptionIndexed2,
    ValueFederate.registerGlobalPublication_X,
    ValueFederate.registerGlobalInput_X.
  split; [| split]; intros Hapart.
  - exact (indexed_keys_apart
             (fun k => registerGlobalPublication k (ValueConverter_type X) units)
             key i1 i2 j1 j2 fed Hapart).
  - exact (indexed_keys_apart
             (fun k => registerGlobalInput k (ValueConverter_type X) units)
             key i1 i2 j1 j2 fed Hapart).
  - exact (indexed_keys_apart (fun k => registerSubscription k units)
             key i1 i2 j1 j2 fed Hapart).
Qed.
End Registration.

(** X19.  The identifiers [gen_id] builds for two processes, or for two
    uuids in one process, are different: the identifier determines the
    process id and the uuid text.  It is never empty. *)
Theorem gen_id_determines_pid_and_uuid (pid1 pid2 : Z) (uuid1 uuid2 : string) :
  0 <= pid1 -> 0 <= pid2 ->
  gen_id pid1 uuid1 = gen_id pid2 uuid2 ->
  pid1 = pid2 /\ uuid1 = uuid2 /\ string_empty (gen_id pid1 uuid1) = false.
Proof.
  intros H1 H2 Heq. unfold gen_id in Heq. rewrite !append_assoc in Heq.
  assert (Hdash : forall z, 0 <= z -> string_forall (is_not "-"%char) (to_string z) = true).
  { intros z Hz. apply (string_forall_impl is_digit); [| now apply to_string_digits].
    intros c. now apply is_digit_is_not. }
  destruct (split_at_separator "-"%char _ _ _ _ (Hdash _ H1) (Hdash _ H2) Heq)
    as [Hpid Huuid].
  split; [now apply to_string_inj |]. split; [exact Huuid |].
  unfold gen_id. destruct (to_string pid1); reflexivity.
Qed.

Lemma indexed_registrations_tell_indices_apart_witness :
  ValueFederate.registerPublicationIndexed (fun X : string => X)
      Fixture.register_key "double" "grid" 3 "V" Fixture.starting
    <> ValueFederate.registerPublicationIndexed (fun X : string => X)
         Fixture.register_key "double" "grid" 4 "V" Fixture.starting /\
  ValueFederate.registerInputIndexed (fun X : string => X)
      Fixture.register_key "double" "grid" 12 "V" Fixture.starting
    <> ValueFederate.registerInputIndexed2 (fun X : string => X)
         Fixture.register_key "double" "grid" 1 2 "V" Fixture.starting /\
  ValueFederate.registerSubscriptionIndexed2 Fixture.register_target
      "grid" 1 2 "V" Fixture.starting
    <> ValueFederate.registerSubscriptionIndexed2 Fixture.register_target
         "grid" 1 3 "V" Fixture.starting.
Proof.
  assert (Hkey : ValueFederate.tells_keys_apart
                   (fun k => Fixture.register_key k "double" "V") Fixture.starting)
    by (intros k1 k2 Heq; cbn in Heq; injection Heq as Heq _; exact Heq).
  assert (Htarget : ValueFederate.tells_keys_apart
                      (fun k => Fixture.register_target k "V") Fixture.starting)
    by (intros k1 k2 Heq; cbn in Heq; injection Heq as Heq _; exact Heq).
  split; [| split].
  - apply (proj1 (indexed_registrations_tell_indices_apart (fun X : string => X)
                    Fixture.register_key Fixture.register_key Fixture.register_target
                    "double" "grid" "V" 3 0 4 0 Fixture.starting)); [exact Hkey | lia].
  - apply (proj1 (proj2 (indexed_registrations_tell_indices_apart
                    (fun X : string => X)
                    Fixture.register_key Fixture.register_key Fixture.register_target
                    "double" "grid" "V" 12 0 1 2 Fixture.starting))).
    exact Hkey.
  - apply (proj2 (proj2 (indexed_registrations_tell_indices_apart
                    (fun X : string => X)
                    Fixture.register_key Fixture.register_key Fixture.register_target
                    "double" "grid" "V" 1 2 1 3 Fixture.starting))); [exact Htarget |].
    right. lia.
Defined.

Lemma gen_id_determines_pid_and_uuid_witness :
  gen_id 42 "6fa459ea" = "42-6fa459ea" /\
  (42 = 42 /\ "6fa459ea" = "6fa459ea"
   /\ string_empty (gen_id 42 "6fa459ea") = false).
Proof.
  split; [reflexivity |].
  apply (gen_id_determines_pid_and_uuid 42 42 "6fa459ea" "6fa459ea");
    [lia | lia | reflexivity].
Defined.

End NumeralFacts.

(** ** More on the tick timer completion handler *)

Module TickHandlerMore.
Import BrokerBase.

Lemma set_queue_same (b : t) : set_queue (_queue b) b = b.
Proof. destruct b; reflexivity. Qed.

Lemma queue_set_queue (q : BlockingPriorityQueue) (b : t) :
  _queue (set_queue q b) = q.
Proof. destruct b; reflexivity. Qed.

Lemma set_queue_twice (q q' : BlockingPriorityQueue) (b : t) :
  set_queue q (set_queue q' b) = set_queue q b.
Proof. destruct b; reflexivity. Qed.

Section Handler.
Context {D : ActionMessageDefs}.

(** X20.  When the handler returns, the broker differs from the one it
    was given in its queue only, and there by at most one message, a
    [CMD_TICK], added at the back of one lane: nothing queued before is
    removed or overtaken.  It writes to the console only when it has
    swallowed an exception, and then it has enqueued nothing. *)
Theorem timerTickHandler_only_appends_a_tick (fault : option exn) (active : bool)
    (error : error_code) (b b' : t) (cout cout' : list string) :
  timerTickHandler fault active error b cout = Normal (b', cout') ->
  b' = set_queue (_queue b') b /\
  exists added : list ActionMessage,
    (added = [] \/ exists m, added = [m] /\ action m = CMD_TICK) /\
    ((priorityLane (_queue b') = priorityLane (_queue b) ++ added /\
      normalLane (_queue b') = normalLane (_queue b)) \/
     (priorityLane (_queue b') = priorityLane (_queue b) /\
      normalLane (_queue b') = normalLane (_queue b) ++ added)) /\
    (cout' = cout \/
     (added = [] /\ cout' = cout ++ ["exception caught from addActionMessage"])).
Proof.
  unfold timerTickHandler, addActionMessage, addActionMessage_move,
    emplace, emplacePriority.
  destruct active; [| intros Heq; injection Heq as <- <-;
                      rewrite set_queue_same; split; [reflexivity |];
                      exists []; rewrite !app_nil_r; auto].
  destruct fault as [[what|]|], (error =? operation_aborted); cbn;
    try discriminate;
    try (intros Heq; injection Heq as <- <-;
         rewrite set_queue_same; split; [reflexivity |];
         exists []; rewrite !app_nil_r; auto; fail);
    destruct (isPriorityCommand _); intros Heq; injection Heq as <- <-;
    rewrite ?queue_set_queue; (split; [reflexivity |]);
    eexists; cbn;
    (split; [| split; [first [left; split; reflexivity | right; split; reflexivity]
                     | left; reflexivity]]);
    right; eexists; split; reflexivity.
Qed.

(** X21.  The handler lets an exception out exactly when the liveness
    flag is up, the queue operation throws, and either the completion is
    [operation_aborted] or the exception is not a [std::exception]; the
    exception that leaves is the one the queue threw. *)
Theorem timerTickHandler_throws_iff (fault : option exn) (active : bool)
    (error : error_code) (b : t) (cout : list string) (e : exn) :
  timerTickHandler fault active error b cout = Throws e
  <-> active = true /\ fault = Some e /\
      (error = operation_aborted \/ e = foreign_exception).
Proof.
  unfold timerTickHandler, addActionMessage, addActionMessage_move.
  destruct active; [| split; [discriminate | intros [Hx _]; discriminate]].
  destruct (Z.eqb_spec error operation_aborted) as [Hab | Hab]; cbn.
  - destruct fault as [e'|]; cbn.
    + split; [intros Heq; injection Heq as ->; auto |].
      intros (_ & Hf & _). now injection Hf as ->.
    + destruct (isPriorityCommand _); cbn;
        (split; [discriminate | intros (_ & Hf & _); discriminate]).
  - destruct fault as [[what|]|]; cbn.
    + split; [discriminate |].
      intros (_ & Hf & [Hx | Hx]); [contradiction |].
      injection Hf as <-. discriminate.
    + split; [intros Heq; injection Heq as <-; auto |].
      intros (_ & Hf & _). now injection Hf as <-.
    + destruct (isPriorityCommand _); cbn;
        (split; [discriminate | intros (_ & Hf & _); discriminate]).
Qed.
End Handler.

Lemma timerTickHandler_only_appends_a_tick_witness :
  exists added : list ActionMessage,
    (added = [] \/ exists m, added = [m] /\ action m = CMD_TICK) /\
    ((priorityLane (push Fixture.tick emptyQueue) = [] ++ added /\
      normalLane (push Fixture.tick emptyQueue) = []) \/
     (priorityLane (push Fixture.tick emptyQueue) = [] /\
      normalLane (push Fixture.tick emptyQueue) = [] ++ added)).
Proof.
  destruct (timerTickHandler_only_appends_a_tick (D := Fixture.defs)
              None true success (Fixture.broker false false)
              (set_queue (push Fixture.tick emptyQueue) (Fixture.broker false false))
              [] [] eq_refl)
    as (_ & added & Hadded & Hlanes & _).
  exists added. split; [exact Hadded | exact Hlanes].
Defined.

Lemma timerTickHandler_throws_iff_witness :
  timerTickHandler (D := Fixture.defs) (Some foreign_exception) true success
      (Fixture.broker false false) []
    = Throws foreign_exception.
Proof.
  apply (proj2 (timerTickHandler_throws_iff (D := Fixture.defs)
                  (Some foreign_exception) true success
                  (Fixture.broker false false) [] foreign_exception)).
  split; [reflexivity |]. split; [reflexivity |]. right. reflexivity.
Defined.

End TickHandlerMore.
